(** * SEAT.composition_functions: isotopic composition transforms

    A shallow embedding of [SEAT/composition_functions.py]:
    [are_nuclides], [unfold_composite], [pollute] and [enrich].

    Modelling choices.
    - A Python [dict[str, float]] is an insertion-ordered association list
      with unique keys ([Dict.t]); [d[k] = v] overwrites in place when [k] is
      present and appends otherwise, as CPython does.  Iteration order is
      kept because [enrich] reads the first enricher key and a dict
      comprehension lets the later of two equal keys win.
    - Numbers come in two readings.  On [Qc] (canonical fractions with
      Leibniz equality) a Python [float] is an exact rational: this is the
      reading for the control flow, the stores and the statements of exact
      arithmetic.  In [Binary64] the same functions run on IEEE 754 binary64
      floats, as Python computes them: this is where a statement that
      relies on the laws of exact arithmetic is tested against rounding.
      In both, division raises [ZeroDivisionError] on a zero divisor.
    - Exceptions are values of [exception], threaded by the [result] monad.
    - Dictionary keys and file lines are ASCII strings.  The classifiers are
      also given on arbitrary sequences of code points, in [Unicode], with
      the character classes of the Unicode database as parameters. *)

From Stdlib Require Import String Ascii List Bool ZArith QArith Qcanon.
From Stdlib Require Import Field Lia Permutation.
From Stdlib Require PrimFloat.
Import ListNotations.

Set Implicit Arguments.
Set Warnings "-inexact-float".
Local Open Scope Qc_scope.

(** ** Exceptions and the [result] monad *)

Inductive exception : Type :=
| IndexError
| KeyError (key : string)
| AttributeError (name : string)
| ZeroDivisionError.

Inductive result (A : Type) : Type :=
| Ok (a : A)
| Raise (e : exception).

Arguments Ok {A} a.
Arguments Raise {A} e.

Definition bind {A B : Type} (m : result A) (f : A -> result B) : result B :=
  match m with
  | Ok a => f a
  | Raise e => Raise e
  end.

Notation "x <- m ;; k" := (bind m (fun x => k))
  (at level 61, m at next level, right associativity).

(** A [for] loop whose body may raise: the state is threaded through the
    items in order and the first exception aborts the loop. *)
Fixpoint for_each {A S : Type} (l : list A) (s : S) (body : S -> A -> result S)
  : result S :=
  match l with
  | [] => Ok s
  | x :: l' => s' <- body s x ;; for_each l' s' body
  end.

(** A list comprehension whose element expression may raise. *)
Fixpoint comprehension {A B : Type} (f : A -> result B) (l : list A)
  : result (list B) :=
  match l with
  | [] => Ok []
  | x :: l' => y <- f x ;; ys <- comprehension f l' ;; Ok (y :: ys)
  end.

(** ** Python dictionaries *)

Module Dict.
Section Ops.
Context {V : Type}.

Definition t : Type := list (string * V).

Definition empty : t := [].
Definition items (d : t) : list (string * V) := d.
Definition keys (d : t) : list string := map fst d.
Definition values (d : t) : list V := map snd d.
Definition copy (d : t) : t := d.

Fixpoint get (d : t) (k : string) : option V :=
  match d with
  | [] => None
  | (k', v) :: d' => if String.eqb k k' then Some v else get d' k
  end.

(** [k in d.keys()] *)
Definition contains (d : t) (k : string) : bool :=
  existsb (String.eqb k) (keys d).

(** [d[k]] as an expression *)
Definition getitem (d : t) (k : string) : result V :=
  match get d k with
  | Some v => Ok v
  | None => Raise (KeyError k)
  end.

(** [d[k] = v] as a statement *)
Fixpoint setitem (d : t) (k : string) (v : V) : t :=
  match d with
  | [] => [(k, v)]
  | (k', v') :: d' =>
      if String.eqb k k' then (k', v) :: d' else (k', v') :: setitem d' k v
  end.

(** Storing a sequence of pairs one after the other, as a dict
    comprehension or [dict.update] does. *)
Definition update (d : t) (kvs : list (string * V)) : t :=
  fold_left (fun acc kv => setitem acc (fst kv) (snd kv)) kvs d.

(** The last value a sequence of pairs gives for [k]. *)
Definition last_of (kvs : list (string * V)) (k : string) : option V :=
  get (rev kvs) k.

(** The representation invariant of a dictionary: keys are unique. *)
Definition wf (d : t) : Prop := NoDup (keys d).

Definition wfb (d : t) : bool :=
  (fix go (ks : list string) : bool :=
     match ks with
     | [] => true
     | k :: ks' => negb (existsb (String.eqb k) ks') && go ks'
     end) (keys d).
End Ops.
Arguments t V : clear implicits.
End Dict.

(** ** Python numbers *)

Definition dict : Type := Dict.t Qc.

(** [sum(xs)]: left to right, starting from 0. *)
Definition sum (xs : list Qc) : Qc := fold_left Qcplus xs 0.

(** [x / y] on floats. *)
Definition truediv (x y : Qc) : result Qc :=
  if Qc_eq_dec y 0 then Raise ZeroDivisionError else Ok (x / y).

(** Fraction literals. *)
Definition frac (n : Z) (d : positive) : Qc := Q2Qc (n # d).

(** ** [pollute] *)

Definition pollute (abundance pollutants : dict) : result dict :=
  let polluted := Dict.copy pollutants in
  for_each (Dict.items abundance) polluted
    (fun polluted '(nuclide, share) =>
       a1 <- Dict.getitem abundance nuclide ;;
       a2 <- Dict.getitem abundance nuclide ;;
       Ok (Dict.setitem polluted nuclide
             (a1 - a2 * sum (Dict.values pollutants)))).

(** ** [enrich] *)

Section Enrich.
(** [SEAT.nuclides.nuclide2element]: the element symbol of a nuclide
    symbol.  The module is an external collaborator; the transform only
    compares its results for equality. *)
Variable nuclide2element : string -> string.

(** [sum([v - abundance[k] for k, v in enrichers.items()])] *)
Definition enrich_delta (abundance enrichers : dict) : result Qc :=
  ds <- comprehension
          (fun '(k, v) => a <- Dict.getitem abundance k ;; Ok (v - a))
          (Dict.items enrichers) ;;
  Ok (sum ds).

(** [sum([v for k, v in abundance.items()
          if nuclide2element(k) == enriched_element
          and k not in enrichers.keys()])] *)
Definition enrich_capacity (abundance enrichers : dict)
           (enriched_element : string) : Qc :=
  sum (map snd
         (filter (fun '(k, v) =>
                    String.eqb (nuclide2element k) enriched_element
                    && negb (Dict.contains enrichers k))
                 (Dict.items abundance))).

(** The value stored for one item of [abundance] by the loop body. *)
Definition enrich_item (abundance enrichers : dict)
           (enriched_element : string) (nuclide : string) (share : Qc)
  : result Qc :=
  if Dict.contains enrichers nuclide then
    Dict.getitem enrichers nuclide
  else if negb (String.eqb (nuclide2element nuclide) enriched_element) then
    Dict.getitem abundance nuclide
  else
    a <- Dict.getitem abundance nuclide ;;
    delta <- enrich_delta abundance enrichers ;;
    q <- truediv (delta * share)
                 (enrich_capacity abundance enrichers enriched_element) ;;
    Ok (a - q).

(** [nuclide2element(list(enrichers.keys())[0])] *)
Definition enriched_element_of (enrichers : dict) : result string :=
  match Dict.keys enrichers with
  | [] => Raise IndexError
  | k :: _ => Ok (nuclide2element k)
  end.

Definition enrich (abundance enrichers : dict) : result dict :=
  let enriched := Dict.empty in
  enriched_element <- enriched_element_of enrichers ;;
  for_each (Dict.items abundance) enriched
    (fun enriched '(nuclide, share) =>
       v <- enrich_item abundance enrichers enriched_element nuclide share ;;
       Ok (Dict.setitem enriched nuclide v)).
End Enrich.

(** ** [unfold_composite] *)

Section Unfold.
(** [SEAT.natural]: the natural-abundance table, read by attribute
    lookup.  An element without an attribute has no entry. *)
Variable natural : string -> option dict.

(** [getattr(SEAT.natural, element)] *)
Definition getattr_natural (element : string) : result dict :=
  match natural element with
  | Some isotopes => Ok isotopes
  | None => Raise (AttributeError element)
  end.

(** The dict comprehension, as the two nested loops it runs. *)
Definition unfold_composite (composite : dict) : result dict :=
  for_each (Dict.items composite) Dict.empty
    (fun unfolded '(element, share) =>
       isotopes <- getattr_natural element ;;
       for_each (Dict.items isotopes) unfolded
         (fun unfolded '(k, v) => Ok (Dict.setitem unfolded k (v * share)))).
End Unfold.

(** ** Symbol classifiers *)

Definition is_digit (c : ascii) : bool :=
  let n := nat_of_ascii c in (48 <=? n)%nat && (n <=? 57)%nat.

Definition is_alpha (c : ascii) : bool :=
  let n := nat_of_ascii c in
  ((65 <=? n)%nat && (n <=? 90)%nat) || ((97 <=? n)%nat && (n <=? 122)%nat).

Definition is_alnum (c : ascii) : bool := is_alpha c || is_digit c.

(** [str.isalpha()] and [str.isalnum()] on ASCII strings: every character
    is in the class and there is at least one character.  ([Unicode] has
    them on arbitrary strings.) *)
Definition str_isalpha (s : string) : bool :=
  match s with
  | EmptyString => false
  | _ => forallb is_alpha (list_ascii_of_string s)
  end.

Definition str_isalnum (s : string) : bool :=
  match s with
  | EmptyString => false
  | _ => forallb is_alnum (list_ascii_of_string s)
  end.

(** [np.prod] of a list of booleans (1 on the empty list) and [bool(...)] of
    the number it gives. *)
Definition np_prod (xs : list bool) : Z := fold_left Z.mul (map Z.b2z xs) 1%Z.
Definition py_bool (z : Z) : bool := negb (z =? 0)%Z.

Definition are_elements (keys : list string) : bool :=
  py_bool (np_prod (map str_isalpha keys)).

Definition are_nuclides (keys : list string) : bool :=
  py_bool (np_prod (map str_isalnum keys))
  && py_bool (np_prod (map (fun k => negb (str_isalpha k)) keys)).

(** ** Vocabulary of the specification *)

(** Python's [==] on dictionaries: the same keys with the same values,
    whatever the insertion order. *)
Definition dict_equal (d1 d2 : dict) : Prop :=
  forall k, Dict.get d1 k = Dict.get d2 k.

(** The total abundance a composition gives to the nuclides of one element. *)
Definition element_total (nuclide2element : string -> string)
           (element : string) (d : dict) : Qc :=
  sum (map snd
         (filter (fun '(k, v) => String.eqb (nuclide2element k) element)
                 (Dict.items d))).

(** What the specification asks of a set of nuclide symbols. *)
Definition all_alnum (s : string) : bool :=
  forallb is_alnum (list_ascii_of_string s).
Definition all_alpha (s : string) : bool :=
  forallb is_alpha (list_ascii_of_string s).
Definition has_digit (s : string) : bool :=
  existsb is_digit (list_ascii_of_string s).
Definition has_non_alnum (s : string) : bool :=
  existsb (fun c => negb (is_alnum c)) (list_ascii_of_string s).

(** Modelled from the spec: [SEAT.nuclides.nuclide2element] is not among the
    sources.  The glossary gives a nuclide symbol as "element symbol plus
    mass number", so the element is the leading alphabetic part of the
    symbol.  Used for the concrete compositions below only. *)
Fixpoint nuclide2element_model (s : string) : string :=
  match s with
  | EmptyString => EmptyString
  | String c s' =>
      if is_alpha c then String c (nuclide2element_model s') else EmptyString
  end.

(** [d[k]] where the key is known to be present (0 stands for an absent
    key and is never read by the transforms). *)
Definition value_of (d : dict) (k : string) : Qc :=
  match Dict.get d k with
  | Some v => v
  | None => 0
  end.

(** The value [pollute] stores for a key of [abundance]. *)
Definition rescaled (abundance pollutants : dict) (k : string) : Qc :=
  value_of abundance k - value_of abundance k * sum (Dict.values pollutants).

(** The net abundance [enrich] adds to the enriched nuclides:
    the sum over the enrichers of [v - abundance[k]]. *)
Definition net_added (abundance enrichers : dict) : Qc :=
  sum (map (fun kv => snd kv - value_of abundance (fst kv))
           (Dict.items enrichers)).

(** The items of [abundance] that [enrichers] re-targets: those of the
    element [E] whose key is an enricher key. *)
Definition retargeted (nuclide2element : string -> string)
           (abundance enrichers : dict) (E : string) : dict :=
  filter (fun kv => Dict.contains enrichers (fst kv))
         (filter (fun kv => String.eqb (nuclide2element (fst kv)) E)
                 abundance).

(** The natural split of an element, empty when the table has no entry. *)
Definition split_of (natural : string -> option dict) (element : string)
  : dict :=
  match natural element with
  | Some isotopes => isotopes
  | None => []
  end.

(** The pairs [k: v * share] one element of a composite gives, and the pairs
    of a whole composite in the order the comprehension produces them. *)
Definition scaled (share : Qc) (isotopes : dict) : list (string * Qc) :=
  map (fun kv => (fst kv, snd kv * share)) isotopes.

Definition contributions (natural : string -> option dict) (composite : dict)
  : list (string * Qc) :=
  flat_map (fun es => scaled (snd es) (split_of natural (fst es))) composite.

(** Every element of the composite has an entry in the table. *)
Definition all_known (natural : string -> option dict) (composite : dict)
  : Prop :=
  forall element, In element (Dict.keys composite) -> natural element <> None.

(** Decidable equality of results, for closed computations. *)
Definition Qc_eqb (x y : Qc) : bool := Qeq_bool (this x) (this y).

Fixpoint dict_eqb (d1 d2 : dict) : bool :=
  match d1, d2 with
  | [], [] => true
  | (k1, v1) :: d1', (k2, v2) :: d2' =>
      String.eqb k1 k2 && Qc_eqb v1 v2 && dict_eqb d1' d2'
  | _, _ => false
  end.

Definition returns (r : result dict) (d : dict) : bool :=
  match r with
  | Ok d' => dict_eqb d' d
  | Raise _ => false
  end.

Definition raises {A : Type} (r : result A) : bool :=
  match r with
  | Ok _ => false
  | Raise _ => true
  end.

(** ** Concrete compositions *)

Module Samples.
Local Open Scope string_scope.

Definition halves : dict := [("A", frac 1 2); ("B", frac 1 2)].
Definition tenth_C : dict := [("C", frac 1 10)].
Definition tenth_A : dict := [("A", frac 1 10)].

Definition uranium : dict :=
  [("U235", frac 1 100); ("U238", frac 99 100); ("O16", 1)].
Definition both_isotopes : dict :=
  [("U235", frac 1 5); ("U238", frac 4 5)].
Definition reactor_grade : dict := [("U235", frac 1 20)].
Definition natural_U235 : dict := [("U235", frac 1 100)].

Definition pure_U235 : dict := [("U235", 1); ("U238", 0)].
Definition all_U235 : dict := [("U235", 1)].

Definition water : dict := [("H1", frac 2 3); ("O16", frac 1 3)].

(** What [enrich] returns on [uranium] for the two enricher mappings. *)
Definition uranium_5_percent : dict :=
  [("U235", frac 1 20); ("U238", frac 19 20); ("O16", 1)].
Definition uranium_20_percent : dict :=
  [("U235", frac 1 5); ("U238", frac 4 5); ("O16", 1)].

(** A natural table with two entries that name the same nuclide. *)
Definition clashing (element : string) : option dict :=
  if String.eqb element "X" then Some [("N1", 1)]
  else if String.eqb element "Y" then Some [("N1", frac 1 4); ("N2", frac 3 4)]
  else None.
Definition mix_XY : dict := [("X", frac 1 2); ("Y", frac 1 2)].

(** Hydrogen and carbon as the natural table gives them. *)
Definition light (element : string) : option dict :=
  if String.eqb element "H" then
    Some [("H1", frac 99985 100000); ("H2", frac 15 100000)]
  else if String.eqb element "C" then
    Some [("C12", frac 9893 10000); ("C13", frac 107 10000)]
  else None.
Definition methane : dict := [("C", frac 1 5); ("H", frac 4 5)].
End Samples.

(** ** [get_existing_xs] *)

(** The ASCII characters [str.strip()] removes from both ends: tab, line
    feed, vertical tab, form feed, carriage return, the separators 28 to 31
    and the space.  (Lines are ASCII; the white space beyond ASCII that
    Python also strips is not covered.) *)
Definition is_space (c : ascii) : bool :=
  let n := nat_of_ascii c in
  ((9 <=? n)%nat && (n <=? 13)%nat) || ((28 <=? n)%nat && (n <=? 32)%nat).

Fixpoint lstrip_chars (l : list ascii) : list ascii :=
  match l with
  | [] => []
  | c :: l' => if is_space c then lstrip_chars l' else l
  end.

Definition strip_chars (l : list ascii) : list ascii :=
  rev (lstrip_chars (rev (lstrip_chars l))).

(** [s.strip()] *)
Definition strip (s : string) : string :=
  string_of_list_ascii (strip_chars (list_ascii_of_string s)).

(** [get_existing_xs], as a function of the lines [f.readlines()] gives for
    the resource file of the library; locating and opening the file stay
    with the caller.  The set comprehension keeps one copy of each stripped
    line; the order of a Python set is unspecified and none is relied on. *)
Definition get_existing_xs (readlines : list string) : list string :=
  nodup string_dec (map strip readlines).

(** A symbol written on a line of its own, as the resource files have it. *)
Definition line_of (symbol : string) : string :=
  (symbol ++ String "010"%char EmptyString)%string.

(** A line of white space only. *)
Definition blank (line : string) : bool :=
  forallb is_space (list_ascii_of_string line).


(** ** Vocabulary for the outcomes of [enrich] *)

(** The first enricher key that [abundance] does not have, if any. *)
Definition first_missing (abundance enrichers : dict) : option string :=
  find (fun k => negb (Dict.contains abundance k)) (Dict.keys enrichers).

(** Whether [abundance] has a nuclide of the element [E] that is not an
    enricher key: the items that reach the redistribution branch. *)
Definition has_unlisted (nuclide2element : string -> string)
           (abundance enrichers : dict) (E : string) : bool :=
  existsb (fun k => String.eqb (nuclide2element k) E
                    && negb (Dict.contains enrichers k))
          (Dict.keys abundance).

(** The value [enrich] stores for the item [(k, share)] of [abundance] when
    nothing is raised. *)
Definition enriched_value (nuclide2element : string -> string)
           (abundance enrichers : dict) (E : string)
           (k : string) (share : Qc) : Qc :=
  if Dict.contains enrichers k then value_of enrichers k
  else if String.eqb (nuclide2element k) E then
    value_of abundance k
    - net_added abundance enrichers * share
      / enrich_capacity nuclide2element abundance enrichers E
  else value_of abundance k.

(** Compositions for the outcomes of [enrich]. *)
Module Cases.
Local Open Scope string_scope.

(** An enricher mapping that names a nuclide the uranium sample lacks. *)
Definition with_U234 : dict := [("U235", frac 1 20); ("U234", frac 1 100)].

(** Uranium with three isotopes, and the same enriched to 20% in U235. *)
Definition three_isotopes : dict :=
  [("U234", frac 1 100); ("U235", frac 4 100); ("U238", frac 95 100);
   ("O16", frac 2 1)].
Definition twenty_percent : dict := [("U235", frac 1 5)].
Definition three_isotopes_at_20 : dict :=
  [("U234", frac 1 120); ("U235", frac 1 5); ("U238", frac 19 24);
   ("O16", frac 2 1)].
End Cases.

(** ** The transforms on binary64 floats

    The same functions with Python's own [float]: IEEE 754 binary64 with
    round to nearest, as Rocq's primitive floats compute it.  Statements of
    exact arithmetic are settled on [Qc] above; what rounding does to them is
    evaluated here. *)

Module Binary64.
Import PrimFloat.
Local Open Scope float_scope.

Definition dict : Type := Dict.t float.

(** [sum(xs)]: left to right, starting from 0.  (CPython 3.12 and later
    compensate the additions; on a list of at most two floats, the only
    ones summed in the evaluations below, the result is the same.) *)
Definition sum (xs : list float) : float := fold_left add xs 0.

(** [x / y]: Python raises on a divisor equal to zero, of either sign. *)
Definition truediv (x y : float) : result float :=
  if eqb y 0 then Raise ZeroDivisionError else Ok (x / y).

Definition pollute (abundance pollutants : dict) : result dict :=
  let polluted := Dict.copy pollutants in
  for_each (Dict.items abundance) polluted
    (fun polluted '(nuclide, share) =>
       a1 <- Dict.getitem abundance nuclide ;;
       a2 <- Dict.getitem abundance nuclide ;;
       Ok (Dict.setitem polluted nuclide
             (a1 - a2 * sum (Dict.values pollutants)))).

Section Enrich.
Variable nuclide2element : string -> string.

Definition enrich_delta (abundance enrichers : dict) : result float :=
  ds <- comprehension
          (fun '(k, v) => a <- Dict.getitem abundance k ;; Ok (v - a))
          (Dict.items enrichers) ;;
  Ok (sum ds).

Definition enrich_capacity (abundance enrichers : dict)
           (enriched_element : string) : float :=
  sum (map snd
         (filter (fun '(k, v) =>
                    String.eqb (nuclide2element k) enriched_element
                    && negb (Dict.contains enrichers k))
                 (Dict.items abundance))).

Definition enrich_item (abundance enrichers : dict)
           (enriched_element : string) (nuclide : string) (share : float)
  : result float :=
  if Dict.contains enrichers nuclide then
    Dict.getitem enrichers nuclide
  else if negb (String.eqb (nuclide2element nuclide) enriched_element) then
    Dict.getitem abundance nuclide
  else
    a <- Dict.getitem abundance nuclide ;;
    delta <- enrich_delta abundance enrichers ;;
    q <- truediv (delta * share)
                 (enrich_capacity abundance enrichers enriched_element) ;;
    Ok (a - q).

Definition enriched_element_of (enrichers : dict) : result string :=
  match Dict.keys enrichers with
  | [] => Raise IndexError
  | k :: _ => Ok (nuclide2element k)
  end.

Definition enrich (abundance enrichers : dict) : result dict :=
  let enriched := Dict.empty in
  enriched_element <- enriched_element_of enrichers ;;
  for_each (Dict.items abundance) enriched
    (fun enriched '(nuclide, share) =>
       v <- enrich_item abundance enrichers enriched_element nuclide share ;;
       Ok (Dict.setitem enriched nuclide v)).

(** The total abundance a composition gives to the nuclides of one element. *)
Definition element_total (element : string) (d : dict) : float :=
  sum (map snd
         (filter (fun '(k, v) => String.eqb (nuclide2element k) element)
                 (Dict.items d))).
End Enrich.

(** Compositions in decimal notation, each literal read as the nearest
    binary64 value, as Python reads it. *)
Definition fifth_A : dict := [("A"%string, 0.2)].
Definition fifth_C : dict := [("C"%string, 0.2)].
Definition halves : dict := [("A"%string, 0.5); ("B"%string, 0.5)].
Definition tenth_C : dict := [("C"%string, 0.1)].
Definition polluted_halves : dict :=
  [("C"%string, 0.1); ("A"%string, 0.45); ("B"%string, 0.45)].
Definition uranium : dict := [("U235"%string, 0.007); ("U238"%string, 0.3)].
Definition to_3_percent : dict := [("U235"%string, 0.03)].
End Binary64.

(** ** The classifiers on arbitrary Python strings

    A Python string is a sequence of code points, and [str.isalpha] and
    [str.isalnum] read the classes of a character from the Unicode database.
    The database is no part of the sources: the four character tests are
    parameters.  The definitions on [string] above are their restriction to
    ASCII. *)

Module Unicode.
Section Classes.
(** [c.isalpha()], [c.isdecimal()], [c.isdigit()] and [c.isnumeric()] of a
    one-character string. *)
Variables isalpha_char isdecimal_char isdigit_char isnumeric_char : N -> bool.

(** The test CPython applies to each character in [str.isalnum]. *)
Definition isalnum_char (c : N) : bool :=
  isalpha_char c || isdecimal_char c || isdigit_char c || isnumeric_char c.

Definition str_isalpha (s : list N) : bool :=
  match s with
  | [] => false
  | _ => forallb isalpha_char s
  end.

Definition str_isalnum (s : list N) : bool :=
  match s with
  | [] => false
  | _ => forallb isalnum_char s
  end.

Definition are_elements (keys : list (list N)) : bool :=
  py_bool (np_prod (map str_isalpha keys)).

Definition are_nuclides (keys : list (list N)) : bool :=
  py_bool (np_prod (map str_isalnum keys))
  && py_bool (np_prod (map (fun k => negb (str_isalpha k)) keys)).

(** What the specification asks of a set of nuclide symbols. *)
Definition is_digit (c : N) : bool := isdecimal_char c || isdigit_char c.
Definition all_alnum (s : list N) : bool := forallb isalnum_char s.
Definition all_alpha (s : list N) : bool := forallb isalpha_char s.
Definition has_digit (s : list N) : bool := existsb is_digit s.
Definition has_non_alpha (s : list N) : bool :=
  existsb (fun c => negb (isalpha_char c)) s.
Definition has_non_alnum (s : list N) : bool :=
  existsb (fun c => negb (isalnum_char c)) s.
End Classes.
End Unicode.

(** The classes of the code points up to 255 as the Unicode database gives
    them (letters include the accented ones and the ordinal indicators,
    digits the superscripts, numerics the vulgar fractions); every other
    code point is left unclassified.  Used for the concrete strings only. *)
Module Latin1.
Definition between (lo hi c : N) : bool := (lo <=? c)%N && (c <=? hi)%N.

Definition isalpha_char (c : N) : bool :=
  between 65 90 c || between 97 122 c
  || (c =? 170)%N || (c =? 181)%N || (c =? 186)%N
  || between 192 214 c || between 216 246 c || between 248 255 c.

Definition isdecimal_char (c : N) : bool := between 48 57 c.

Definition isdigit_char (c : N) : bool :=
  between 48 57 c || (c =? 178)%N || (c =? 179)%N || (c =? 185)%N.

Definition isnumeric_char (c : N) : bool :=
  isdigit_char c || between 188 190 c.

Definition are_elements : list (list N) -> bool :=
  Unicode.are_elements isalpha_char.

Definition are_nuclides : list (list N) -> bool :=
  Unicode.are_nuclides isalpha_char isdecimal_char isdigit_char
                       isnumeric_char.

(** The code points of a string of one-byte characters. *)
Definition code_points (s : string) : list N :=
  map N_of_ascii (list_ascii_of_string s).

(** "Fe", "Fé", "Fe56", "Fé56", "U235" and "U-235". *)
Definition Fe : list N := [70; 101]%N.
Definition Fe_acute : list N := [70; 233]%N.
Definition Fe56 : list N := [70; 101; 53; 54]%N.
Definition Fe_acute_56 : list N := [70; 233; 53; 54]%N.
Definition U235 : list N := [85; 50; 51; 53]%N.
Definition U_235 : list N := [85; 45; 50; 51; 53]%N.
End Latin1.

(** Whether a string holds ASCII characters only. *)
Definition ascii_only (s : string) : bool :=
  forallb (fun c => (N_of_ascii c <? 128)%N) (list_ascii_of_string s).

(** Compositions on which a nuclide of the target element is left with no
    abundance to absorb the enrichment. *)
Module Depleted.
Local Open Scope string_scope.
Definition oxide : dict :=
  [("U235", frac 1 2); ("U238", 0); ("O16", frac 1 2)].
Definition to_60_percent : dict := [("U235", frac 3 5)].
End Depleted.

(** * Properties *)

(** ** The [result] monad and loops *)

Lemma bind_Ok_inv {A B : Type} (m : result A) (f : A -> result B) (b : B) :
  bind m f = Ok b -> exists a, m = Ok a /\ f a = Ok b.
Proof.
  destruct m as [a | e]; simpl; intros H.
  - exists a; split; [reflexivity | exact H].
  - discriminate H.
Qed.

Lemma comprehension_Ok {A B : Type} (f : A -> result B) (g : A -> B) l :
  (forall x, In x l -> f x = Ok (g x)) ->
  comprehension f l = Ok (map g l).
Proof.
  induction l as [| x l IH]; simpl; intros H; [reflexivity |].
  rewrite (H x (or_introl eq_refl)); simpl.
  rewrite IH by (intros y Hy; apply H; right; exact Hy).
  reflexivity.
Qed.

Lemma comprehension_Forall2 {A B : Type} (f : A -> result B) l ys :
  comprehension f l = Ok ys -> Forall2 (fun x y => f x = Ok y) l ys.
Proof.
  revert ys; induction l as [| x l IH]; simpl; intros ys H.
  - injection H as <-; constructor.
  - apply bind_Ok_inv in H as (y & Hy & H).
    apply bind_Ok_inv in H as (ys' & Hys & H).
    injection H as <-; constructor; [exact Hy | apply IH; exact Hys].
Qed.

(** ** Dictionaries *)

Section DictFacts.
Context {V : Type}.
Implicit Types (d : Dict.t V) (k n : string) (v : V).

Lemma contains_In d k : Dict.contains d k = true <-> In k (Dict.keys d).
Proof.
  unfold Dict.contains; rewrite existsb_exists; split.
  - intros (x & Hx & E); apply String.eqb_eq in E; subst; exact Hx.
  - intros H; exists k; split; [exact H | apply String.eqb_refl].
Qed.

Lemma contains_false d k : Dict.contains d k = false <-> ~ In k (Dict.keys d).
Proof.
  rewrite <- contains_In; destruct (Dict.contains d k); split; intros H;
    try reflexivity; try discriminate; try (intros H'; discriminate).
  exfalso; apply H; reflexivity.
Qed.

Lemma get_None d k : Dict.get d k = None <-> ~ In k (Dict.keys d).
Proof.
  induction d as [| [k' v'] d IH]; simpl.
  - split; [intros _ [] | reflexivity].
  - destruct (String.eqb_spec k k') as [-> | Hne].
    + split; [discriminate | intros H; exfalso; apply H; left; reflexivity].
    + rewrite IH; split.
      * intros H [E | H']; [apply Hne; symmetry; exact E | exact (H H')].
      * intros H H'; apply H; right; exact H'.
Qed.

Lemma get_Some_In d k v : Dict.get d k = Some v -> In (k, v) d.
Proof.
  induction d as [| [k' v'] d IH]; simpl; [discriminate |].
  destruct (String.eqb_spec k k') as [-> | Hne].
  - intros [= ->]; left; reflexivity.
  - intros H; right; exact (IH H).
Qed.

Lemma get_In_keys d k : In k (Dict.keys d) -> exists v, Dict.get d k = Some v.
Proof.
  intros H; destruct (Dict.get d k) as [v |] eqn:E; [exists v; reflexivity |].
  apply get_None in E; contradiction.
Qed.

Lemma In_keys d k v : In (k, v) d -> In k (Dict.keys d).
Proof. intros H; exact (in_map fst _ _ H). Qed.

Lemma wf_get d k v : Dict.wf d -> In (k, v) d -> Dict.get d k = Some v.
Proof.
  unfold Dict.wf; induction d as [| [k' v'] d IH]; simpl; [intros _ [] |].
  intros Hnd [E | Hin].
  - injection E as -> ->; rewrite String.eqb_refl; reflexivity.
  - inversion Hnd as [| ? ? Hnotin Hnd']; subst.
    destruct (String.eqb_spec k k') as [-> | Hne].
    + exfalso; apply Hnotin; eapply In_keys; exact Hin.
    + exact (IH Hnd' Hin).
Qed.

Lemma wfb_wf d : Dict.wfb d = true <-> Dict.wf d.
Proof.
  unfold Dict.wfb, Dict.wf; induction (Dict.keys d) as [| k ks IH]; simpl.
  - split; [intros _; constructor | reflexivity].
  - rewrite andb_true_iff, negb_true_iff, IH; split.
    + intros [Hk Hks]; constructor; [| exact Hks].
      intros Hin; assert (existsb (String.eqb k) ks = true) as E.
      { apply existsb_exists; exists k; split;
          [exact Hin | apply String.eqb_refl]. }
      congruence.
    + intros Hnd; inversion Hnd as [| ? ? Hnotin Hnd']; subst.
      split; [| exact Hnd'].
      destruct (existsb (String.eqb k) ks) eqn:E; [| reflexivity].
      apply existsb_exists in E as (x & Hx & E).
      apply String.eqb_eq in E; subst; contradiction.
Qed.

Lemma get_setitem d k v n :
  Dict.get (Dict.setitem d k v) n
  = if String.eqb n k then Some v else Dict.get d n.
Proof.
  induction d as [| [k' v'] d IH]; simpl.
  - destruct (String.eqb n k); reflexivity.
  - destruct (String.eqb_spec k k') as [-> | Hne]; simpl.
    + destruct (String.eqb n k'); reflexivity.
    + rewrite IH; destruct (String.eqb_spec n k') as [-> | Hne'].
      * destruct (String.eqb_spec k' k) as [E | _];
          [exfalso; apply Hne; symmetry; exact E | reflexivity].
      * reflexivity.
Qed.

Lemma keys_setitem_In d k v n :
  In n (Dict.keys (Dict.setitem d k v)) <-> n = k \/ In n (Dict.keys d).
Proof.
  induction d as [| [k' v'] d IH]; simpl.
  - split; [intros [E | []]; left; symmetry; exact E
           | intros [E | []]; left; symmetry; exact E].
  - destruct (String.eqb_spec k k') as [-> | Hne]; simpl.
    + split; [intros H; right; exact H |].
      intros [E | H]; [left; symmetry; exact E | exact H].
    + rewrite IH; tauto.
Qed.

Lemma setitem_fresh d k v :
  ~ In k (Dict.keys d) -> Dict.setitem d k v = d ++ [(k, v)].
Proof.
  induction d as [| [k' v'] d IH]; simpl; intros H; [reflexivity |].
  destruct (String.eqb_spec k k') as [-> | Hne].
  - exfalso; apply H; left; reflexivity.
  - rewrite IH by (intros H'; apply H; right; exact H'); reflexivity.
Qed.

Lemma get_app d1 d2 n :
  Dict.get (d1 ++ d2) n
  = match Dict.get d1 n with Some v => Some v | None => Dict.get d2 n end.
Proof.
  induction d1 as [| [k' v'] d1 IH]; simpl; [reflexivity |].
  destruct (String.eqb n k'); [reflexivity | exact IH].
Qed.

Lemma get_update d kvs n :
  Dict.get (Dict.update d kvs) n
  = match Dict.last_of kvs n with
    | Some v => Some v
    | None => Dict.get d n
    end.
Proof.
  unfold Dict.update, Dict.last_of; revert d.
  induction kvs as [| [k v] kvs IH]; simpl; intros d; [reflexivity |].
  rewrite IH, get_app, get_setitem; simpl.
  destruct (Dict.get (rev kvs) n); [reflexivity |].
  destruct (String.eqb n k); reflexivity.
Qed.

Lemma keys_update_In d kvs n :
  In n (Dict.keys (Dict.update d kvs))
  <-> In n (Dict.keys d) \/ In n (map fst kvs).
Proof.
  unfold Dict.update; revert d.
  induction kvs as [| [k v] kvs IH]; simpl; intros d; [tauto |].
  rewrite IH, keys_setitem_In; split; intros H; intuition auto.
Qed.

Lemma update_fresh d kvs :
  NoDup (Dict.keys d ++ map fst kvs) -> Dict.update d kvs = d ++ kvs.
Proof.
  unfold Dict.update; revert d.
  induction kvs as [| [k v] kvs IH]; simpl; intros d Hnd.
  - symmetry; apply app_nil_r.
  - assert (~ In k (Dict.keys d)) as Hk.
    { intros Hin; apply NoDup_remove_2 in Hnd; apply Hnd.
      apply in_or_app; left; exact Hin. }
    rewrite setitem_fresh by exact Hk; rewrite IH.
    + rewrite <- app_assoc; reflexivity.
    + unfold Dict.keys in *; rewrite map_app; simpl.
      rewrite <- app_assoc; exact Hnd.
Qed.

(** A loop that stores one computed value per item is the comprehension
    of the values followed by the stores. *)
Lemma for_each_store {A : Type} (key : A -> string) (val : A -> result V)
      (l : list A) d :
  for_each l d (fun acc x => v <- val x ;; Ok (Dict.setitem acc (key x) v))
  = (vs <- comprehension val l ;;
     Ok (Dict.update d (combine (map key l) vs))).
Proof.
  revert d; induction l as [| x l IH]; simpl; intros d; [reflexivity |].
  destruct (val x) as [v | e]; simpl; [| reflexivity].
  rewrite IH; destruct (comprehension val l); reflexivity.
Qed.
End DictFacts.

Lemma get_map_keyed {A V : Type} (l : list (string * A)) (f : string -> V) n :
  Dict.get (map (fun kv => (fst kv, f (fst kv))) l) n
  = if Dict.contains l n then Some (f n) else None.
Proof.
  unfold Dict.contains, Dict.keys.
  induction l as [| [k x] l IH]; simpl; [reflexivity |].
  destruct (String.eqb_spec n k) as [-> | Hne]; simpl; [reflexivity | exact IH].
Qed.

Lemma contains_rev {V : Type} (l : Dict.t V) n :
  Dict.contains (rev l) n = Dict.contains l n.
Proof.
  destruct (Dict.contains l n) eqn:E.
  - apply contains_In; apply contains_In in E.
    unfold Dict.keys in *; rewrite map_rev; apply in_rev.
    rewrite rev_involutive; exact E.
  - apply contains_false; apply contains_false in E.
    unfold Dict.keys in *; rewrite map_rev; intros H; apply E.
    apply in_rev; exact H.
Qed.

Lemma last_of_map_keyed {A V : Type} (l : list (string * A))
      (f : string -> V) n :
  Dict.last_of (map (fun kv => (fst kv, f (fst kv))) l) n
  = if Dict.contains l n then Some (f n) else None.
Proof.
  unfold Dict.last_of; rewrite <- map_rev, get_map_keyed, contains_rev.
  reflexivity.
Qed.

(** ** Sums *)

Lemma fold_left_Qcplus_acc (xs : list Qc) (a : Qc) :
  fold_left Qcplus xs a = a + sum xs.
Proof.
  unfold sum; revert a; induction xs as [| x xs IH]; simpl; intros a.
  - ring.
  - rewrite (IH (a + x)), (IH (0 + x)); ring.
Qed.

Lemma sum_nil : sum [] = 0.
Proof. reflexivity. Qed.

Lemma sum_cons (x : Qc) xs : sum (x :: xs) = x + sum xs.
Proof. unfold sum at 1; simpl; rewrite fold_left_Qcplus_acc; ring. Qed.

Lemma sum_app xs ys : sum (xs ++ ys) = sum xs + sum ys.
Proof.
  induction xs as [| x xs IH]; simpl.
  - rewrite sum_nil; ring.
  - rewrite !sum_cons, IH; ring.
Qed.

Lemma sum_Permutation xs ys : Permutation xs ys -> sum xs = sum ys.
Proof.
  induction 1 as [| x xs ys _ IH | x y xs | xs ys zs _ IH1 _ IH2].
  - reflexivity.
  - rewrite !sum_cons, IH; reflexivity.
  - rewrite !sum_cons; ring.
  - rewrite IH1; exact IH2.
Qed.

Lemma sum_map_scale {A : Type} (f : A -> Qc) (c : Qc) l :
  sum (map (fun x => f x * c) l) = sum (map f l) * c.
Proof.
  induction l as [| x l IH]; simpl.
  - rewrite sum_nil; ring.
  - rewrite !sum_cons, IH; ring.
Qed.

Lemma sum_map_ext {A : Type} (f g : A -> Qc) l :
  (forall x, In x l -> f x = g x) -> sum (map f l) = sum (map g l).
Proof.
  intros H; f_equal; apply map_ext_in; exact H.
Qed.

Lemma sum_map_minus {A : Type} (f g : A -> Qc) l :
  sum (map (fun x => f x - g x) l) = sum (map f l) - sum (map g l).
Proof.
  induction l as [| x l IH]; simpl.
  - rewrite sum_nil; ring.
  - rewrite !sum_cons, IH; ring.
Qed.

(** Splitting a sum by a test on the items. *)
Lemma sum_filter_split {A : Type} (f : A -> Qc) (p : A -> bool) l :
  sum (map f l)
  = sum (map f (filter p l)) + sum (map f (filter (fun x => negb (p x)) l)).
Proof.
  induction l as [| x l IH]; simpl.
  - rewrite sum_nil; ring.
  - destruct (p x); simpl; rewrite !sum_cons, IH; ring.
Qed.

(** ** Closed computations *)

Lemma Qc_eqb_eq (x y : Qc) : Qc_eqb x y = true -> x = y.
Proof.
  unfold Qc_eqb; intros H; apply Qc_is_canon, Qeq_bool_eq; exact H.
Qed.

Lemma dict_eqb_eq (d1 d2 : dict) : dict_eqb d1 d2 = true -> d1 = d2.
Proof.
  revert d2; induction d1 as [| [k1 v1] d1 IH]; intros [| [k2 v2] d2]; simpl;
    try reflexivity; try discriminate.
  rewrite !andb_true_iff; intros [[Hk Hv] Hd].
  apply String.eqb_eq in Hk; apply Qc_eqb_eq in Hv; apply IH in Hd.
  subst; reflexivity.
Qed.

Lemma returns_Ok (r : result dict) (d : dict) : returns r d = true -> r = Ok d.
Proof.
  destruct r as [d' | e]; simpl; [| discriminate].
  intros H; apply dict_eqb_eq in H; subst; reflexivity.
Qed.

(** ** [pollute] *)

Section PolluteFacts.
Variables abundance pollutants : dict.

Lemma getitem_key (d : dict) k :
  In k (Dict.keys d) -> Dict.getitem d k = Ok (value_of d k).
Proof.
  intros H; apply get_In_keys in H as [v Hv].
  unfold Dict.getitem, value_of; rewrite Hv; reflexivity.
Qed.

Lemma pollute_loop l polluted :
  incl l (Dict.items abundance) ->
  for_each l polluted
    (fun polluted '(nuclide, share) =>
       a1 <- Dict.getitem abundance nuclide ;;
       a2 <- Dict.getitem abundance nuclide ;;
       Ok (Dict.setitem polluted nuclide
             (a1 - a2 * sum (Dict.values pollutants))))
  = Ok (Dict.update polluted
          (map (fun kv => (fst kv, rescaled abundance pollutants (fst kv))) l)).
Proof.
  revert polluted; induction l as [| [k x] l IH]; simpl; intros polluted Hl;
    [reflexivity |].
  assert (In k (Dict.keys abundance)) as Hk.
  { eapply In_keys; apply Hl; left; reflexivity. }
  rewrite (getitem_key _ _ Hk); simpl.
  rewrite IH by (intros y Hy; apply Hl; right; exact Hy).
  reflexivity.
Qed.

(** [pollute] never raises, and its result is the pollutants followed by
    the stores of the rescaled base values. *)
Lemma pollute_returns :
  pollute abundance pollutants
  = Ok (Dict.update pollutants
          (map (fun kv => (fst kv, rescaled abundance pollutants (fst kv)))
               abundance)).
Proof. unfold pollute; apply pollute_loop, incl_refl. Qed.

Lemma pollute_get n :
  exists r, pollute abundance pollutants = Ok r
    /\ Dict.get r n
       = if Dict.contains abundance n
         then Some (rescaled abundance pollutants n)
         else Dict.get pollutants n.
Proof.
  eexists; split; [apply pollute_returns |].
  rewrite get_update, last_of_map_keyed.
  destruct (Dict.contains abundance n); reflexivity.
Qed.
End PolluteFacts.

Lemma rescaled_wf (abundance pollutants : dict) k x :
  Dict.get abundance k = Some x ->
  rescaled abundance pollutants k = x * (1 - sum (Dict.values pollutants)).
Proof. unfold rescaled, value_of; intros ->; ring. Qed.

Lemma map_keyed_fst {A V : Type} (f : string -> V) (l : list (string * A)) :
  map fst (map (fun kv => (fst kv, f (fst kv))) l) = map fst l.
Proof. rewrite map_map; reflexivity. Qed.

Lemma pollute_nothing (abundance : dict) :
  Dict.wf abundance -> pollute abundance [] = Ok abundance.
Proof.
  intros Hwf; rewrite pollute_returns; f_equal.
  rewrite update_fresh by (simpl; rewrite map_keyed_fst; exact Hwf).
  simpl; transitivity (map (fun kv : string * Qc => kv) abundance);
    [| apply map_id].
  apply map_ext_in; intros [k v] Hin; simpl.
  erewrite rescaled_wf by (apply wf_get; eassumption); simpl.
  f_equal; rewrite sum_nil; ring.
Qed.

(** C1, as the code has it: for a nuclide [n] that is a key of both
    mappings, [pollute] returns a mapping that gives [n] the rescaled base
    value [abundance[n] - abundance[n] * sum(pollutants.values())]; the
    store made by the loop over [abundance] overwrites the copied pollutant
    entry. *)
Theorem pollute_shared_key_rescaled (abundance pollutants : dict) n x y :
  Dict.get abundance n = Some x ->
  Dict.get pollutants n = Some y ->
  exists r, pollute abundance pollutants = Ok r
    /\ Dict.get r n = Some (x - x * sum (Dict.values pollutants)).
Proof.
  intros Ha _; destruct (pollute_get abundance pollutants n) as (r & Hr & Hn).
  exists r; split; [exact Hr |].
  assert (Dict.contains abundance n = true) as Hc.
  { apply contains_In; eapply In_keys, get_Some_In; exact Ha. }
  rewrite Hn, Hc; unfold rescaled, value_of; rewrite Ha; reflexivity.
Qed.

Lemma pollute_shared_key_rescaled_witness :
  exists r, pollute Samples.halves Samples.tenth_A = Ok r
    /\ Dict.get r "A"
       = Some (frac 1 2 - frac 1 2 * sum (Dict.values Samples.tenth_A)).
Proof.
  apply (@pollute_shared_key_rescaled
           Samples.halves Samples.tenth_A "A" (frac 1 2) (frac 1 10));
    reflexivity.
Defined.

(** C1 as stated fails: with abundance {A: 1/2, B: 1/2} and pollutants
    {A: 1/10} the key A is in both, and the result gives A the value 9/20,
    not the pollutant value 1/10. *)
Lemma pollute_pollutant_overwritten :
  In "A"%string (Dict.keys Samples.halves)
  /\ In "A"%string (Dict.keys Samples.tenth_A)
  /\ exists r, pollute Samples.halves Samples.tenth_A = Ok r
       /\ Dict.get r "A" = Some (frac 9 20)
       /\ Dict.get r "A" <> Dict.get Samples.tenth_A "A".
Proof.
  split; [left; reflexivity |]; split; [left; reflexivity |].
  exists [("A"%string, frac 9 20); ("B"%string, frac 9 20)].
  split; [apply returns_Ok; vm_compute; reflexivity |].
  split; [reflexivity |].
  simpl; intros H.
  assert (this (frac 9 20) = this (frac 1 10)) as E by congruence.
  vm_compute in E; discriminate E.
Qed.

(** C6, as the code has it: when the two mappings share no key, [pollute]
    returns a mapping that gives every key [n] of [abundance] the value
    [abundance[n] - abundance[n] * sum(pollutants.values())], in the code's
    own operations, and every key of [pollutants] its pollutant value, and
    has no other key; on {A: 1/2, B: 1/2} and {C: 1/10} it returns
    {C: 1/10, A: 9/20, B: 9/20}; and with no pollutant it returns
    [abundance]. *)
Theorem pollute_disjoint_keys_stored :
  (forall abundance pollutants : dict,
      (forall k, In k (Dict.keys abundance) -> ~ In k (Dict.keys pollutants)) ->
      exists r, pollute abundance pollutants = Ok r
        /\ (forall n x, Dict.get abundance n = Some x ->
              Dict.get r n = Some (x - x * sum (Dict.values pollutants)))
        /\ (forall n, In n (Dict.keys pollutants) ->
              Dict.get r n = Dict.get pollutants n)
        /\ (forall n, In n (Dict.keys r) <->
              In n (Dict.keys pollutants) \/ In n (Dict.keys abundance)))
  /\ pollute Samples.halves Samples.tenth_C
     = Ok [("C"%string, frac 1 10); ("A"%string, frac 9 20);
           ("B"%string, frac 9 20)]
  /\ (forall abundance : dict,
         Dict.wf abundance -> pollute abundance [] = Ok abundance).
Proof.
  split; [| split].
  - intros abundance pollutants Hdisj.
    eexists; split; [apply pollute_returns |]; split; [| split].
    + intros n x Ha; rewrite get_update, last_of_map_keyed.
      assert (Dict.contains abundance n = true) as ->.
      { apply contains_In; eapply In_keys, get_Some_In; exact Ha. }
      unfold rescaled, value_of; rewrite Ha; reflexivity.
    + intros n Hp; rewrite get_update, last_of_map_keyed.
      assert (Dict.contains abundance n = false) as ->; [| reflexivity].
      apply contains_false; intros Ha; exact (Hdisj n Ha Hp).
    + intros n; rewrite keys_update_In, map_keyed_fst; reflexivity.
  - apply returns_Ok; vm_compute; reflexivity.
  - exact pollute_nothing.
Qed.

Lemma pollute_disjoint_keys_stored_witness :
  Dict.wf Samples.water
  /\ pollute Samples.water [] = Ok Samples.water
  /\ exists r, pollute Samples.water Samples.tenth_C = Ok r
       /\ Dict.get r "H1"
          = Some (frac 2 3 - frac 2 3 * sum (Dict.values Samples.tenth_C))
       /\ Dict.get r "C" = Some (frac 1 10).
Proof.
  assert (Dict.wf Samples.water) as Hwf by (apply wfb_wf; reflexivity).
  split; [exact Hwf |].
  split; [apply (proj2 (proj2 pollute_disjoint_keys_stored)); exact Hwf |].
  destruct (proj1 pollute_disjoint_keys_stored Samples.water Samples.tenth_C)
    as (r & Hr & Ha & Hp & _).
  - intros k Hk [Hc | []]; subst k; vm_compute in Hk; intuition discriminate.
  - exists r; split; [exact Hr |]; split.
    + apply Ha; reflexivity.
    + rewrite Hp; [reflexivity | left; reflexivity].
Defined.

(** ** [enrich] *)

Lemma for_each_ext {A S : Type} (f g : S -> A -> result S) l s :
  (forall s x, f s x = g s x) -> for_each l s f = for_each l s g.
Proof.
  intros H; revert s; induction l as [| x l IH]; simpl; intros s;
    [reflexivity |].
  rewrite H; destruct (g s x); simpl; [apply IH | reflexivity].
Qed.

Lemma Forall2_length_eq {A B : Type} (R : A -> B -> Prop) l1 l2 :
  Forall2 R l1 l2 -> length l1 = length l2.
Proof. induction 1; simpl; congruence. Qed.

Lemma map_fst_combine {A B : Type} (l1 : list A) (l2 : list B) :
  length l1 = length l2 -> map fst (combine l1 l2) = l1.
Proof.
  revert l2; induction l1 as [| x l1 IH]; intros [| y l2]; simpl;
    try reflexivity; try discriminate.
  intros [= H]; rewrite IH by exact H; reflexivity.
Qed.

Lemma combine_fst_snd {A B : Type} (l : list (A * B)) :
  combine (map fst l) (map snd l) = l.
Proof.
  induction l as [| [x y] l IH]; simpl; [reflexivity |].
  rewrite IH; reflexivity.
Qed.

(** Stores whose values for the key [n] all equal [x]. *)
Lemma get_update_const {A V : Type} (kvs : list (string * A)) (vs : list V)
      (d : Dict.t V) n x :
  Forall2 (fun kv v => fst kv = n -> v = x) kvs vs ->
  Dict.get (Dict.update d (combine (map fst kvs) vs)) n
  = if Dict.contains kvs n then Some x else Dict.get d n.
Proof.
  unfold Dict.update, Dict.contains, Dict.keys; intros H; revert d.
  induction H as [| [k a] v kvs vs Hv _ IH]; simpl; intros d; [reflexivity |].
  rewrite IH, get_setitem.
  destruct (existsb (String.eqb n) (map fst kvs)); simpl.
  - rewrite orb_true_r; reflexivity.
  - rewrite orb_false_r.
    destruct (String.eqb_spec n k) as [-> | Hne]; [| reflexivity].
    rewrite (Hv eq_refl); reflexivity.
Qed.

Section EnrichFacts.
Variable nuclide2element : string -> string.
Variables abundance enrichers : dict.

(** [enrich] is the lookup of the target element, the evaluation of one
    value per item of [abundance], and the stores into a fresh mapping. *)
Lemma enrich_unfold :
  enrich nuclide2element abundance enrichers
  = (E <- enriched_element_of nuclide2element enrichers ;;
     vs <- comprehension
             (fun kv => enrich_item nuclide2element abundance enrichers E
                          (fst kv) (snd kv))
                         abundance ;;
     Ok (Dict.update [] (combine (Dict.keys abundance) vs))).
Proof.
  unfold enrich; destruct (enriched_element_of _ _) as [E | e]; simpl;
    [| reflexivity].
  unfold Dict.keys, Dict.items, Dict.empty.
  rewrite <- (for_each_store fst
                (fun kv => enrich_item nuclide2element abundance enrichers E
                             (fst kv) (snd kv))).
  apply for_each_ext.
  intros s [k x]; reflexivity.
Qed.

Lemma enrich_inv r :
  enrich nuclide2element abundance enrichers = Ok r ->
  exists E vs,
    enriched_element_of nuclide2element enrichers = Ok E
    /\ Forall2 (fun kv v =>
                 enrich_item nuclide2element abundance enrichers E
                             (fst kv) (snd kv) = Ok v)
               abundance vs
    /\ r = Dict.update [] (combine (Dict.keys abundance) vs).
Proof.
  rewrite enrich_unfold; intros H.
  apply bind_Ok_inv in H as (E & HE & H).
  apply bind_Ok_inv in H as (vs & Hvs & H).
  exists E, vs; split; [exact HE |]; split.
  - apply comprehension_Forall2; exact Hvs.
  - injection H as <-; reflexivity.
Qed.

(** When every item evaluates, [enrich] returns the stores of the values. *)
Lemma enrich_values E (val : string -> Qc -> Qc) :
  enriched_element_of nuclide2element enrichers = Ok E ->
  (forall k x, In (k, x) abundance ->
     enrich_item nuclide2element abundance enrichers E k x = Ok (val k x)) ->
  enrich nuclide2element abundance enrichers
  = Ok (Dict.update [] (map (fun kv => (fst kv, val (fst kv) (snd kv)))
                            abundance)).
Proof.
  intros HE Hval; rewrite enrich_unfold, HE; simpl.
  rewrite (comprehension_Ok _ (fun kv => val (fst kv) (snd kv)));
    [| intros [k x] Hin; apply Hval; exact Hin].
  simpl; do 2 f_equal; unfold Dict.keys; clear Hval.
  induction abundance as [| [k x] l IH]; simpl; [reflexivity |].
  rewrite <- IH; reflexivity.
Qed.

Lemma enrich_keys r :
  enrich nuclide2element abundance enrichers = Ok r ->
  (forall k, In k (Dict.keys r) <-> In k (Dict.keys abundance))
  /\ (Dict.wf abundance -> Dict.keys r = Dict.keys abundance).
Proof.
  intros H; apply enrich_inv in H as (E & vs & _ & Hvs & ->).
  assert (length (Dict.keys abundance) = length vs) as Hlen.
  { unfold Dict.keys; rewrite length_map.
    eapply Forall2_length_eq; exact Hvs. }
  split.
  - intros k; rewrite keys_update_In, map_fst_combine by exact Hlen.
    simpl; tauto.
  - intros Hwf; rewrite update_fresh.
    + simpl; unfold Dict.keys at 1; apply map_fst_combine; exact Hlen.
    + simpl; rewrite map_fst_combine by exact Hlen; exact Hwf.
Qed.
End EnrichFacts.

Lemma value_of_get (d : dict) k :
  In k (Dict.keys d) -> Dict.get d k = Some (value_of d k).
Proof.
  intros H; apply get_In_keys in H as [v Hv].
  unfold value_of; rewrite Hv; reflexivity.
Qed.

(** C4, as the code has it: whenever [enrich] returns, a nuclide of
    [abundance] that is not an enricher key and whose element differs from
    the target element [E] (the element of the first enricher key) has the
    value [abundance] gives it. *)
Theorem enrich_other_element_unchanged
        (nuclide2element : string -> string) (abundance enrichers : dict)
        (E n : string) (r : dict) :
  enriched_element_of nuclide2element enrichers = Ok E ->
  In n (Dict.keys abundance) ->
  ~ In n (Dict.keys enrichers) ->
  nuclide2element n <> E ->
  enrich nuclide2element abundance enrichers = Ok r ->
  Dict.get r n = Dict.get abundance n.
Proof.
  intros HE Ha He Hel H.
  apply enrich_inv in H as (E' & vs & HE' & Hvs & ->).
  assert (E' = E) as -> by congruence.
  unfold Dict.keys at 1.
  rewrite get_update_const with (x := value_of abundance n).
  - assert (Dict.contains abundance n = true) as ->
        by (apply contains_In; exact Ha).
    symmetry; apply value_of_get; exact Ha.
  - eapply Forall2_impl; [| exact Hvs].
    intros [k x] v Hitem Hk; simpl in Hk, Hitem; subst k.
    unfold enrich_item in Hitem.
    assert (Dict.contains enrichers n = false) as Hc
        by (apply contains_false; exact He).
    rewrite Hc in Hitem.
    destruct (String.eqb_spec (nuclide2element n) E) as [Heq | _];
      [contradiction |].
    simpl in Hitem; rewrite (getitem_key _ _ Ha) in Hitem; congruence.
Qed.

Lemma enrich_other_element_unchanged_witness :
  Dict.get Samples.uranium_5_percent "O16" = Dict.get Samples.uranium "O16".
Proof.
  apply (@enrich_other_element_unchanged nuclide2element_model
           Samples.uranium Samples.reactor_grade "U" "O16").
  - reflexivity.
  - right; right; left; reflexivity.
  - intros [H | []]; discriminate H.
  - vm_compute; discriminate.
  - apply returns_Ok; vm_compute; reflexivity.
Defined.

(** C4 as stated fails: with abundance {U235: 1/2, U238: 0, O16: 1/2} and
    enrichers {U235: 3/5}, O16 is a key of the abundance, not an enricher
    key, and not a uranium nuclide; but U238 reaches the redistribution
    branch with a divisor of 0 and [enrich] raises [ZeroDivisionError], so
    no value at all is returned for O16. *)
Lemma enrich_other_element_raises :
  enriched_element_of nuclide2element_model Depleted.to_60_percent
  = Ok "U"%string
  /\ In "O16"%string (Dict.keys Depleted.oxide)
  /\ ~ In "O16"%string (Dict.keys Depleted.to_60_percent)
  /\ nuclide2element_model "O16" <> "U"%string
  /\ enrich nuclide2element_model Depleted.oxide Depleted.to_60_percent
     = Raise ZeroDivisionError
  /\ (forall r, enrich nuclide2element_model Depleted.oxide
                       Depleted.to_60_percent <> Ok r).
Proof.
  assert (enrich nuclide2element_model Depleted.oxide Depleted.to_60_percent
          = Raise ZeroDivisionError) as Hraise by (vm_compute; reflexivity).
  split; [reflexivity |].
  split; [right; right; left; reflexivity |].
  split; [intros [H | []]; discriminate H |].
  split; [vm_compute; discriminate |].
  split; [exact Hraise |].
  intros r; rewrite Hraise; discriminate.
Qed.

(** C10: when [enrich] returns on a non-empty enrichers mapping, its result
    has exactly the keys of [abundance] (in the same order); an enricher
    nuclide that is not a key of [abundance] is absent from the result. *)
Theorem enrich_keys_of_abundance
        (nuclide2element : string -> string) (abundance enrichers : dict)
        (r : dict) :
  enrichers <> [] ->
  enrich nuclide2element abundance enrichers = Ok r ->
  (forall k, In k (Dict.keys r) <-> In k (Dict.keys abundance))
  /\ (Dict.wf abundance -> Dict.keys r = Dict.keys abundance)
  /\ (forall k, In k (Dict.keys enrichers) ->
                ~ In k (Dict.keys abundance) ->
                ~ In k (Dict.keys r) /\ Dict.get r k = None).
Proof.
  intros _ H; destruct (enrich_keys _ _ _ H) as [Hin Heq].
  split; [exact Hin |]; split; [exact Heq |].
  intros k _ Hk.
  assert (~ In k (Dict.keys r)) as Hr by (rewrite Hin; exact Hk).
  split; [exact Hr | apply get_None; exact Hr].
Qed.

Lemma enrich_keys_of_abundance_witness :
  Dict.keys Samples.water = Dict.keys Samples.water
  /\ Dict.get Samples.water "U235" = None.
Proof.
  destruct (@enrich_keys_of_abundance nuclide2element_model
              Samples.water Samples.reactor_grade Samples.water)
    as (_ & Heq & Habsent).
  - discriminate.
  - apply returns_Ok; vm_compute; reflexivity.
  - split.
    + apply Heq, wfb_wf; reflexivity.
    + apply (Habsent "U235"%string).
      * left; reflexivity.
      * vm_compute; intuition discriminate.
Defined.

(** C2, as the code has it: when every nuclide of the target element [E]
    that is a key of [abundance] is also an enricher key, [enrich] returns
    without any error: the divisor is never evaluated, every key of
    [abundance] listed in [enrichers] gets its enricher value and every
    other key keeps its value. *)
Theorem enrich_all_isotopes_listed
        (nuclide2element : string -> string) (abundance enrichers : dict)
        (E : string) :
  enriched_element_of nuclide2element enrichers = Ok E ->
  (forall k, In k (Dict.keys abundance) -> nuclide2element k = E ->
             In k (Dict.keys enrichers)) ->
  exists r, enrich nuclide2element abundance enrichers = Ok r
    /\ (forall n, In n (Dict.keys r) <-> In n (Dict.keys abundance))
    /\ (forall n, In n (Dict.keys abundance) ->
          Dict.get r n = if Dict.contains enrichers n
                         then Dict.get enrichers n
                         else Dict.get abundance n).
Proof.
  intros HE Hall.
  pose (g := fun k => if Dict.contains enrichers k
                      then value_of enrichers k else value_of abundance k).
  assert (enrich nuclide2element abundance enrichers
          = Ok (Dict.update []
                  (map (fun kv => (fst kv, g (fst kv))) abundance)))
    as Hr.
  { apply (enrich_values nuclide2element abundance enrichers
             (fun k _ => g k) HE).
    intros k x Hin; unfold enrich_item, g.
    assert (In k (Dict.keys abundance)) as Hk by (eapply In_keys; exact Hin).
    destruct (Dict.contains enrichers k) eqn:Hc.
    - apply getitem_key, contains_In; exact Hc.
    - destruct (String.eqb_spec (nuclide2element k) E) as [Heq | _]; simpl.
      + apply contains_false in Hc; exfalso; apply Hc, Hall; assumption.
      + apply getitem_key; exact Hk. }
  eexists; split; [exact Hr |]; split.
  - intros n; rewrite keys_update_In, map_keyed_fst; simpl; tauto.
  - intros n Hn; rewrite get_update, last_of_map_keyed.
    assert (Dict.contains abundance n = true) as ->
        by (apply contains_In; exact Hn).
    unfold g; destruct (Dict.contains enrichers n) eqn:Hc.
    + symmetry; apply value_of_get, contains_In; exact Hc.
    + symmetry; apply value_of_get; exact Hn.
Qed.

Lemma enrich_all_isotopes_listed_witness :
  exists r, enrich nuclide2element_model Samples.uranium Samples.both_isotopes
            = Ok r
    /\ Dict.get r "U238" = Some (frac 4 5)
    /\ Dict.get r "O16" = Some 1.
Proof.
  destruct (@enrich_all_isotopes_listed nuclide2element_model
              Samples.uranium Samples.both_isotopes "U")
    as (r & Hr & _ & Hget).
  - reflexivity.
  - intros k [<- | [<- | [<- | []]]] Hel.
    + left; reflexivity.
    + right; left; reflexivity.
    + vm_compute in Hel; discriminate Hel.
  - exists r; split; [exact Hr |]; split.
    + rewrite Hget by (right; left; reflexivity); reflexivity.
    + rewrite Hget by (right; right; left; reflexivity); reflexivity.
Defined.

(** C2 as stated fails: with abundance {U235: 1/100, U238: 99/100, O16: 1}
    and enrichers {U235: 1/5, U238: 4/5} every uranium nuclide of the
    abundance is an enricher key, and [enrich] returns
    {U235: 1/5, U238: 4/5, O16: 1}; nothing is raised. *)
Lemma enrich_all_listed_returns :
  Samples.both_isotopes <> []
  /\ (forall k, In k (Dict.keys Samples.uranium) ->
                nuclide2element_model k = "U"%string ->
                In k (Dict.keys Samples.both_isotopes))
  /\ enrich nuclide2element_model Samples.uranium Samples.both_isotopes
     = Ok Samples.uranium_20_percent
  /\ raises (enrich nuclide2element_model Samples.uranium Samples.both_isotopes)
     = false.
Proof.
  split; [discriminate |]; split; [| split].
  - intros k [<- | [<- | [<- | []]]] Hel.
    + left; reflexivity.
    + right; left; reflexivity.
    + vm_compute in Hel; discriminate Hel.
  - apply returns_Ok; vm_compute; reflexivity.
  - vm_compute; reflexivity.
Qed.

Lemma sum_map_zero {A : Type} (l : list A) : sum (map (fun _ => 0) l) = 0.
Proof.
  induction l as [| x l IH]; simpl; [reflexivity |].
  rewrite sum_cons, IH; ring.
Qed.

Lemma map_pair_id {A B : Type} (l : list (A * B)) :
  map (fun kv => (fst kv, snd kv)) l = l.
Proof.
  induction l as [| [x y] l IH]; simpl; [reflexivity |].
  rewrite IH; reflexivity.
Qed.

Section EnrichValues.
Variable nuclide2element : string -> string.
Variables abundance enrichers : dict.
Variable E : string.

(** The two sums of the redistribution branch. *)
Lemma enrich_delta_returns :
  (forall k, In k (Dict.keys enrichers) -> In k (Dict.keys abundance)) ->
  enrich_delta abundance enrichers = Ok (net_added abundance enrichers).
Proof.
  intros Hin; unfold enrich_delta, net_added.
  rewrite (comprehension_Ok _
             (fun kv => snd kv - value_of abundance (fst kv))).
  - reflexivity.
  - intros [k v] Hkv; simpl.
    rewrite getitem_key; [reflexivity |].
    apply Hin; eapply In_keys; exact Hkv.
Qed.

Lemma net_added_natural :
  (forall k v, In (k, v) (Dict.items enrichers) ->
               Dict.get abundance k = Some v) ->
  net_added abundance enrichers = 0.
Proof.
  intros Hnat; unfold net_added.
  rewrite <- (sum_map_zero (Dict.items enrichers)).
  apply sum_map_ext; intros [k v] Hkv; simpl.
  unfold value_of; rewrite (Hnat k v Hkv); ring.
Qed.

(** The value of the redistribution branch when nothing is raised. *)
Lemma enrich_item_redistributes k x :
  Dict.get abundance k = Some x ->
  (forall k, In k (Dict.keys enrichers) -> In k (Dict.keys abundance)) ->
  Dict.contains enrichers k = false ->
  nuclide2element k = E ->
  enrich_capacity nuclide2element abundance enrichers E <> 0 ->
  enrich_item nuclide2element abundance enrichers E k x
  = Ok (x - net_added abundance enrichers * x
            / enrich_capacity nuclide2element abundance enrichers E).
Proof.
  intros Hx Hin Hc Hel HS; unfold enrich_item.
  rewrite Hc, Hel, String.eqb_refl; simpl.
  unfold Dict.getitem; rewrite Hx; simpl.
  rewrite (enrich_delta_returns Hin); simpl.
  unfold truediv; destruct (Qc_eq_dec _ 0) as [Hz | _];
    [contradiction | reflexivity].
Qed.
End EnrichValues.

(** C5, as the code has it: when every enricher item [(k, v)] has
    [abundance[k] = v], and the abundances of the target element's nuclides
    left out of [enrichers] do not sum to zero whenever there is such a
    nuclide, [enrich] returns [abundance]. *)
Theorem enrich_natural_fractions_identity
        (nuclide2element : string -> string) (abundance enrichers : dict)
        (E : string) :
  Dict.wf abundance ->
  enriched_element_of nuclide2element enrichers = Ok E ->
  (forall k v, In (k, v) (Dict.items enrichers) ->
               Dict.get abundance k = Some v) ->
  ((exists k, In k (Dict.keys abundance) /\ nuclide2element k = E
              /\ ~ In k (Dict.keys enrichers)) ->
   enrich_capacity nuclide2element abundance enrichers E <> 0) ->
  enrich nuclide2element abundance enrichers = Ok abundance.
Proof.
  intros Hwf HE Hnat HS.
  assert (forall k, In k (Dict.keys enrichers) -> In k (Dict.keys abundance))
    as Hin.
  { intros k Hk; apply get_In_keys in Hk as [v Hv].
    eapply In_keys, get_Some_In, Hnat, get_Some_In; exact Hv. }
  rewrite (enrich_values nuclide2element abundance enrichers (fun _ x => x) HE).
  - rewrite map_pair_id, update_fresh by exact Hwf; reflexivity.
  - intros k x Hkx.
    assert (Dict.get abundance k = Some x) as Hx by (apply wf_get; assumption).
    destruct (Dict.contains enrichers k) eqn:Hc.
    + unfold enrich_item; rewrite Hc.
      apply contains_In, get_In_keys in Hc as [v Hv].
      unfold Dict.getitem; rewrite Hv.
      apply get_Some_In, Hnat in Hv; congruence.
    + destruct (String.eqb_spec (nuclide2element k) E) as [Hel | Hel].
      * rewrite (@enrich_item_redistributes nuclide2element abundance
                   enrichers E k x Hx Hin Hc Hel).
        -- rewrite net_added_natural by exact Hnat; f_equal.
           unfold Qcdiv; ring.
        -- apply HS; exists k; split; [eapply In_keys; exact Hkx |].
           split; [exact Hel | apply contains_false; exact Hc].
      * unfold enrich_item; rewrite Hc.
        destruct (String.eqb_spec (nuclide2element k) E) as [Heq | _];
          [contradiction |].
        simpl; unfold Dict.getitem; rewrite Hx; reflexivity.
Qed.

Lemma enrich_natural_fractions_identity_witness :
  enrich nuclide2element_model Samples.uranium Samples.natural_U235
  = Ok Samples.uranium.
Proof.
  apply (@enrich_natural_fractions_identity nuclide2element_model
           Samples.uranium Samples.natural_U235 "U").
  - apply wfb_wf; reflexivity.
  - reflexivity.
  - intros k v [[= <- <-] | []]; reflexivity.
  - intros _ H; apply (f_equal this) in H; vm_compute in H; discriminate H.
Defined.

(** C5 as stated fails: with abundance {U235: 1, U238: 0} and enrichers
    {U235: 1} the enricher value is the abundance's own, U238 is a uranium
    nuclide left out of the enrichers, the divisor is 0 and
    [ZeroDivisionError] is raised instead of the abundance being returned. *)
Lemma enrich_identity_zero_capacity :
  Samples.all_U235 <> []
  /\ (forall k v, In (k, v) (Dict.items Samples.all_U235) ->
        In k (Dict.keys Samples.pure_U235)
        /\ Dict.get Samples.pure_U235 k = Some v)
  /\ enrich nuclide2element_model Samples.pure_U235 Samples.all_U235
     = Raise ZeroDivisionError
  /\ enrich nuclide2element_model Samples.pure_U235 Samples.all_U235
     <> Ok Samples.pure_U235.
Proof.
  split; [discriminate |]; split; [| split].
  - intros k v [[= <- <-] | []]; split; [left |]; reflexivity.
  - vm_compute; reflexivity.
  - assert (enrich nuclide2element_model Samples.pure_U235 Samples.all_U235
            = Raise ZeroDivisionError) as -> by (vm_compute; reflexivity).
    discriminate.
Qed.

(** *** Where [ZeroDivisionError] does arise *)

Lemma comprehension_Raise {A B : Type} (f : A -> result B) (e : exception) l :
  (forall x, In x l -> (exists y, f x = Ok y) \/ f x = Raise e) ->
  (exists x, In x l /\ f x = Raise e) ->
  comprehension f l = Raise e.
Proof.
  induction l as [| x l IH]; simpl; intros Hall (x0 & Hin & Hx0);
    [contradiction |].
  destruct (Hall x (or_introl eq_refl)) as [[y Hy] | Hx].
  - rewrite Hy; simpl.
    destruct Hin as [-> | Hin]; [congruence |].
    rewrite IH; [reflexivity | | exists x0; split; assumption].
    intros z Hz; apply Hall; right; exact Hz.
  - rewrite Hx; reflexivity.
Qed.

(** The division fails exactly in the redistribution branch: some nuclide
    of the target element is left out of [enrichers], and the abundances of
    the nuclides left out sum to zero.  The exception is Python's own
    [ZeroDivisionError]. *)
Lemma enrich_zero_capacity_raises
      (nuclide2element : string -> string) (abundance enrichers : dict)
      (E : string) :
  enriched_element_of nuclide2element enrichers = Ok E ->
  (forall k, In k (Dict.keys enrichers) -> In k (Dict.keys abundance)) ->
  (exists k, In k (Dict.keys abundance) /\ nuclide2element k = E
             /\ ~ In k (Dict.keys enrichers)) ->
  enrich_capacity nuclide2element abundance enrichers E = 0 ->
  enrich nuclide2element abundance enrichers = Raise ZeroDivisionError.
Proof.
  intros HE Hknown (k0 & Hk0 & Hel0 & Hout0) HS.
  assert (forall k x, In k (Dict.keys abundance) ->
            Dict.contains enrichers k = false -> nuclide2element k = E ->
            enrich_item nuclide2element abundance enrichers E k x
            = Raise ZeroDivisionError) as Hbranch.
  { intros k x Hk Hc Hel; unfold enrich_item.
    rewrite Hc, Hel, String.eqb_refl; simpl.
    rewrite (getitem_key _ _ Hk); simpl.
    rewrite enrich_delta_returns by exact Hknown; simpl.
    unfold truediv; rewrite HS.
    destruct (Qc_eq_dec 0 0) as [_ | Hne]; [reflexivity | contradiction]. }
  rewrite enrich_unfold, HE; simpl.
  rewrite comprehension_Raise with (e := ZeroDivisionError);
    [reflexivity | |].
  - intros [k x] Hkx; simpl.
    assert (In k (Dict.keys abundance)) as Hk by (eapply In_keys; exact Hkx).
    destruct (Dict.contains enrichers k) eqn:Hc.
    + left; eexists; unfold enrich_item; rewrite Hc.
      apply getitem_key, contains_In; exact Hc.
    + destruct (String.eqb_spec (nuclide2element k) E) as [Hel | Hel].
      * right; apply Hbranch; assumption.
      * left; eexists; unfold enrich_item; rewrite Hc.
        destruct (String.eqb_spec (nuclide2element k) E) as [Heq | _];
          [contradiction |].
        simpl; apply getitem_key; exact Hk.
  - destruct (get_In_keys _ _ Hk0) as [x0 Hx0].
    exists (k0, x0); split; [apply get_Some_In; exact Hx0 |].
    simpl; apply Hbranch; [exact Hk0 | | exact Hel0].
    apply contains_false; exact Hout0.
Qed.

(** ** Conservation within the enriched element *)

Lemma filter_map_swap_keyed {A B : Type} (p : B -> bool) (h : A -> B) l :
  filter p (map h l) = map h (filter (fun x => p (h x)) l).
Proof.
  induction l as [| x l IH]; simpl; [reflexivity |].
  destruct (p (h x)); simpl; rewrite IH; reflexivity.
Qed.

Lemma filter_twice {A : Type} (p q : A -> bool) l :
  filter q (filter p l) = filter (fun x => p x && q x) l.
Proof.
  induction l as [| x l IH]; simpl; [reflexivity |].
  destruct (p x); simpl; [destruct (q x); simpl; rewrite IH |];
    try reflexivity; exact IH.
Qed.

Lemma NoDup_map_filter {A B : Type} (f : A -> B) (p : A -> bool) l :
  NoDup (map f l) -> NoDup (map f (filter p l)).
Proof.
  induction l as [| x l IH]; simpl; intros H; [constructor |].
  inversion H as [| ? ? Hnotin Hnd]; subst.
  destruct (p x); simpl; [| exact (IH Hnd)].
  constructor; [| exact (IH Hnd)].
  intros Hin; apply Hnotin.
  apply in_map_iff in Hin as (y & Hy & Hin).
  apply filter_In in Hin as [Hin _].
  rewrite <- Hy; apply in_map; exact Hin.
Qed.

Lemma sum_map_keys (f : string -> Qc) (d : dict) :
  sum (map (fun kv => f (fst kv)) d) = sum (map f (Dict.keys d)).
Proof. unfold Dict.keys; rewrite map_map; reflexivity. Qed.

Lemma sum_values_of (d : dict) (l : dict) :
  Dict.wf d -> incl l d ->
  sum (map snd l) = sum (map (value_of d) (Dict.keys l)).
Proof.
  intros Hwf Hl; rewrite <- sum_map_keys.
  apply sum_map_ext; intros [k v] Hkv; simpl.
  unfold value_of; rewrite (@wf_get _ d k v Hwf (Hl _ Hkv)); reflexivity.
Qed.

Section Conservation.
Variable nuclide2element : string -> string.
Variables abundance enrichers : dict.
Variable E : string.

Hypothesis wf_abundance : Dict.wf abundance.
Hypothesis wf_enrichers : Dict.wf enrichers.
Hypothesis one_element :
  forall k, In k (Dict.keys enrichers) -> nuclide2element k = E.
Hypothesis known :
  forall k, In k (Dict.keys enrichers) -> In k (Dict.keys abundance).

Lemma retargeted_keys :
  Permutation (Dict.keys (retargeted nuclide2element abundance enrichers E))
              (Dict.keys enrichers).
Proof.
  apply NoDup_Permutation.
  - unfold retargeted, Dict.keys; do 2 apply NoDup_map_filter.
    exact wf_abundance.
  - exact wf_enrichers.
  - intros k; unfold retargeted, Dict.keys; rewrite in_map_iff; split.
    + intros ([k' x] & Hk & Hin); simpl in Hk; subst k'.
      apply filter_In in Hin as [_ Hc]; apply contains_In; exact Hc.
    + intros Hk; destruct (get_In_keys _ _ (known k Hk)) as [x Hx].
      exists (k, x); split; [reflexivity |].
      apply filter_In; split; [| apply contains_In; exact Hk].
      apply filter_In; split; [apply get_Some_In; exact Hx |].
      simpl; rewrite (one_element k Hk); apply String.eqb_refl.
Qed.

Lemma retargeted_incl :
  incl (retargeted nuclide2element abundance enrichers E) abundance.
Proof.
  intros kv H; unfold retargeted in H.
  apply filter_In in H as [H _]; apply filter_In in H as [H _]; exact H.
Qed.

(** What the enrichers impose on the re-targeted items is the sum of the
    enricher values, and what these items had is the sum of
    [abundance[k]] over the enrichers. *)
Lemma retargeted_imposed :
  sum (map (fun kv => value_of enrichers (fst kv))
         (retargeted nuclide2element abundance enrichers E))
  = sum (map snd enrichers).
Proof.
  rewrite sum_map_keys.
  rewrite (sum_Permutation (Permutation_map _ retargeted_keys)).
  symmetry; apply sum_values_of; [exact wf_enrichers | apply incl_refl].
Qed.

Lemma retargeted_natural :
  sum (map snd
         (retargeted nuclide2element abundance enrichers E))
  = sum (map (fun kv => value_of abundance (fst kv)) enrichers).
Proof.
  rewrite (sum_values_of wf_abundance retargeted_incl).
  rewrite (sum_Permutation (Permutation_map _ retargeted_keys)).
  symmetry; apply sum_map_keys.
Qed.

Lemma capacity_as_filter :
  enrich_capacity nuclide2element abundance enrichers E
  = sum (map snd
           (filter (fun kv => negb (Dict.contains enrichers (fst kv)))
              (filter (fun kv => String.eqb (nuclide2element (fst kv)) E)
                      abundance))).
Proof.
  unfold enrich_capacity, Dict.items; rewrite filter_twice.
  do 2 f_equal; apply filter_ext; intros [k v]; reflexivity.
Qed.
End Conservation.

(** C3, in exact rational arithmetic: when the enricher keys are nuclides
    of one element [E] and keys of [abundance], and the abundances of the
    nuclides of [E] left out of [enrichers] do not sum to zero, [enrich]
    returns a mapping that gives the nuclides of [E] the same total as
    [abundance] does. *)
Theorem enrich_conserves_element
        (nuclide2element : string -> string) (abundance enrichers : dict)
        (E : string) :
  Dict.wf abundance ->
  Dict.wf enrichers ->
  enriched_element_of nuclide2element enrichers = Ok E ->
  (forall k, In k (Dict.keys enrichers) -> nuclide2element k = E) ->
  (forall k, In k (Dict.keys enrichers) -> In k (Dict.keys abundance)) ->
  enrich_capacity nuclide2element abundance enrichers E <> 0 ->
  exists r, enrich nuclide2element abundance enrichers = Ok r
    /\ element_total nuclide2element E r
       = element_total nuclide2element E abundance.
Proof.
  intros Hwa Hwe HE Hone Hknown HS.
  set (S := enrich_capacity nuclide2element abundance enrichers E) in *.
  set (D := net_added abundance enrichers).
  pose (val := fun (k : string) (x : Qc) =>
                 if Dict.contains enrichers k then value_of enrichers k
                 else if String.eqb (nuclide2element k) E
                      then x - x * (D * / S) else x).
  assert (enrich nuclide2element abundance enrichers
          = Ok (map (fun kv => (fst kv, val (fst kv) (snd kv))) abundance))
    as Hr.
  { rewrite (enrich_values nuclide2element abundance enrichers val HE).
    - rewrite update_fresh; [reflexivity |].
      simpl; rewrite map_map; exact Hwa.
    - intros k x Hkx; unfold val.
      assert (Dict.get abundance k = Some x) as Hx
          by (apply wf_get; assumption).
      destruct (Dict.contains enrichers k) eqn:Hc.
      + unfold enrich_item; rewrite Hc.
        apply getitem_key, contains_In; exact Hc.
      + destruct (String.eqb_spec (nuclide2element k) E) as [Hel | Hel].
        * rewrite (@enrich_item_redistributes nuclide2element abundance
                     enrichers E k x Hx Hknown Hc Hel HS).
          f_equal; fold S D; unfold Qcdiv; ring.
        * unfold enrich_item; rewrite Hc.
          destruct (String.eqb_spec (nuclide2element k) E) as [Heq | _];
            [contradiction |].
          simpl; unfold Dict.getitem; rewrite Hx; reflexivity. }
  eexists; split; [exact Hr |].
  unfold element_total, Dict.items.
  rewrite filter_map_swap_keyed, map_map; simpl.
  set (T := filter (fun kv => String.eqb (nuclide2element (fst kv)) E)
                   abundance).
  assert (filter (fun '(k, _) => String.eqb (nuclide2element k) E) abundance
          = T)
    as -> by (apply filter_ext; intros [k v]; reflexivity).
  rewrite (sum_filter_split (fun kv => val (fst kv) (snd kv))
             (fun kv => Dict.contains enrichers (fst kv)) T).
  rewrite (sum_filter_split snd
             (fun kv => Dict.contains enrichers (fst kv)) T).
  change (filter (fun kv : string * Qc => Dict.contains enrichers (fst kv)) T)
    with (retargeted nuclide2element abundance enrichers E).
  assert (sum (map snd
                 (filter (fun kv => negb (Dict.contains enrichers (fst kv)))
                         T))
          = S) as HU by (symmetry; apply capacity_as_filter).
  rewrite HU.
  rewrite (sum_map_ext (fun kv => val (fst kv) (snd kv))
             (fun kv => value_of enrichers (fst kv))
             (retargeted nuclide2element abundance enrichers E)).
  2:{ intros [k x] Hin; apply filter_In in Hin as [_ Hc]; simpl in *.
      unfold val; rewrite Hc; reflexivity. }
  rewrite (sum_map_ext (fun kv => val (fst kv) (snd kv))
             (fun kv => snd kv - snd kv * (D * / S))
             (filter (fun kv => negb (Dict.contains enrichers (fst kv))) T)).
  2:{ intros [k x] Hin; apply filter_In in Hin as [Hin Hc]; simpl in *.
      apply filter_In in Hin as [_ Hel]; simpl in Hel.
      apply negb_true_iff in Hc; unfold val; rewrite Hc, Hel; reflexivity. }
  rewrite sum_map_minus, sum_map_scale, HU.
  rewrite retargeted_imposed by assumption.
  rewrite retargeted_natural by assumption.
  unfold D, net_added, Dict.items; rewrite sum_map_minus.
  field; exact HS.
Qed.

Lemma enrich_conserves_element_witness :
  exists r,
    enrich nuclide2element_model Samples.uranium Samples.reactor_grade = Ok r
    /\ element_total nuclide2element_model "U" r
       = element_total nuclide2element_model "U" Samples.uranium.
Proof.
  apply (@enrich_conserves_element nuclide2element_model
           Samples.uranium Samples.reactor_grade "U").
  - apply wfb_wf; reflexivity.
  - apply wfb_wf; reflexivity.
  - reflexivity.
  - intros k [<- | []]; reflexivity.
  - intros k [<- | []]; left; reflexivity.
  - intros H; apply (f_equal this) in H; vm_compute in H; discriminate H.
Defined.

(** ** [unfold_composite] *)

Lemma update_app {V : Type} (d : Dict.t V) kvs1 kvs2 :
  Dict.update d (kvs1 ++ kvs2) = Dict.update (Dict.update d kvs1) kvs2.
Proof. unfold Dict.update; apply fold_left_app. Qed.




Lemma scaled_keys share (isotopes : dict) :
  map fst (scaled share isotopes) = Dict.keys isotopes.
Proof. unfold scaled; rewrite map_map; reflexivity. Qed.


Lemma scaled_sum share (isotopes : dict) :
  sum (map snd (scaled share isotopes)) = sum (Dict.values isotopes) * share.
Proof.
  unfold scaled, Dict.values; rewrite map_map; simpl.
  apply (sum_map_scale snd).
Qed.

Section UnfoldFacts.
Variable natural : string -> option dict.

Lemma isotopes_loop (isotopes : dict) (share : Qc) (unfolded : dict) :
  for_each (Dict.items isotopes) unfolded
    (fun unfolded '(k, v) => Ok (Dict.setitem unfolded k (v * share)))
  = Ok (Dict.update unfolded (scaled share isotopes)).
Proof.
  revert unfolded; induction isotopes as [| [k v] l IH]; simpl;
    intros unfolded; [reflexivity | apply IH].
Qed.

Lemma elements_loop (composite unfolded : dict) :
  all_known natural composite ->
  for_each (Dict.items composite) unfolded
    (fun unfolded '(element, share) =>
       isotopes <- getattr_natural natural element ;;
       for_each (Dict.items isotopes) unfolded
         (fun unfolded '(k, v) => Ok (Dict.setitem unfolded k (v * share))))
  = Ok (Dict.update unfolded (contributions natural composite)).
Proof.
  revert unfolded; induction composite as [| [element share] l IH]; simpl;
    intros unfolded Hknown; [reflexivity |].
  assert (natural element <> None) as Hel by (apply Hknown; left; reflexivity).
  unfold getattr_natural, split_of.
  destruct (natural element) as [isotopes |]; [| contradiction]; simpl.
  rewrite isotopes_loop; simpl; rewrite update_app.
  apply IH; intros el Hin; apply Hknown; right; exact Hin.
Qed.

(** On a composite of known elements [unfold_composite] returns the
    stores of all the contributions, in order. *)
Lemma unfold_composite_returns (composite : dict) :
  all_known natural composite ->
  unfold_composite natural composite
  = Ok (Dict.update [] (contributions natural composite)).
Proof. intros H; unfold unfold_composite; apply elements_loop; exact H. Qed.

Lemma contributions_keys (composite : dict) k :
  In k (map fst (contributions natural composite))
  <-> exists element, In element (Dict.keys composite)
                      /\ In k (Dict.keys (split_of natural element)).
Proof.
  unfold contributions; rewrite in_map_iff; split.
  - intros ([k' x] & Hk & Hin); simpl in Hk; subst k'.
    apply in_flat_map in Hin as ([element share] & Hes & Hin); simpl in Hin.
    exists element; split; [eapply In_keys; exact Hes |].
    rewrite <- (scaled_keys share); exact (in_map fst _ _ Hin).
  - intros (element & Hel & Hk).
    apply in_map_iff in Hel as ([element' share] & He & Hes); simpl in He.
    subst element'; rewrite <- (scaled_keys share) in Hk.
    apply in_map_iff in Hk as (kv & Hkv & Hin).
    exists kv; split; [exact Hkv |].
    apply in_flat_map; exists (element, share); split; assumption.
Qed.

Lemma contributions_sum (composite : dict) :
  (forall element, In element (Dict.keys composite) ->
                   sum (Dict.values (split_of natural element)) = 1) ->
  sum (map snd (contributions natural composite))
  = sum (Dict.values composite).
Proof.
  unfold contributions, Dict.values.
  induction composite as [| [element share] l IH]; simpl; intros Hone;
    [reflexivity |].
  rewrite map_app, sum_app, sum_cons, scaled_sum; unfold Dict.values.
  rewrite (Hone element (or_introl eq_refl)).
  rewrite IH by (intros el Hin; apply Hone; right; exact Hin); ring.
Qed.

Lemma contributions_NoDup (composite : dict) :
  Dict.wf composite ->
  (forall element, In element (Dict.keys composite) ->
                   Dict.wf (split_of natural element)) ->
  (forall e1 e2 k,
      In e1 (Dict.keys composite) -> In e2 (Dict.keys composite) ->
      In k (Dict.keys (split_of natural e1)) ->
      In k (Dict.keys (split_of natural e2)) -> e1 = e2) ->
  NoDup (map fst (contributions natural composite)).
Proof.
  unfold Dict.wf.
  induction composite as [| [element share] l IH]; simpl;
    intros Hwf Hsplit Hclash; [constructor |].
  inversion Hwf as [| ? ? Hnotin Hwf']; subst.
  rewrite map_app; apply NoDup_app.
  - rewrite scaled_keys; apply Hsplit; left; reflexivity.
  - apply IH; [exact Hwf' | |].
    + intros el Hin; apply Hsplit; right; exact Hin.
    + intros e1 e2 k H1 H2; apply Hclash; right; assumption.
  - intros k Hk Hrest; rewrite scaled_keys in Hk.
    apply contributions_keys in Hrest as (e2 & He2 & Hk2).
    apply Hnotin.
    rewrite (Hclash element e2 k); auto.
Qed.
End UnfoldFacts.

(** Conservation for a table without clashes: for a composite whose
    elements all have an entry in the natural table, each entry's fractions
    summing to 1, and such that no nuclide symbol occurs in the entries of
    two distinct elements of the composite, the values of
    [unfold_composite(composite)] sum to the sum of the values of
    [composite]. *)
Theorem unfold_composite_conserves
        (natural : string -> option dict) (composite : dict) :
  Dict.wf composite ->
  (forall element, In element (Dict.keys composite) ->
     exists isotopes, natural element = Some isotopes
                      /\ Dict.wf isotopes
                      /\ sum (Dict.values isotopes) = 1) ->
  (forall e1 e2 i1 i2 k,
      In e1 (Dict.keys composite) -> In e2 (Dict.keys composite) ->
      natural e1 = Some i1 -> natural e2 = Some i2 ->
      In k (Dict.keys i1) -> In k (Dict.keys i2) -> e1 = e2) ->
  exists r, unfold_composite natural composite = Ok r
    /\ sum (Dict.values r) = sum (Dict.values composite).
Proof.
  intros Hwf Htable Hclash.
  assert (all_known natural composite) as Hknown.
  { intros el Hel; destruct (Htable el Hel) as (i & -> & _); discriminate. }
  eexists; split; [apply unfold_composite_returns; exact Hknown |].
  rewrite update_fresh.
  - simpl; apply contributions_sum.
    intros el Hel; destruct (Htable el Hel) as (i & Hi & _ & Hsum).
    unfold split_of; rewrite Hi; exact Hsum.
  - simpl; apply contributions_NoDup; [exact Hwf | |].
    + intros el Hel; destruct (Htable el Hel) as (i & Hi & Hwfi & _).
      unfold split_of; rewrite Hi; exact Hwfi.
    + intros e1 e2 k H1 H2.
      destruct (Htable e1 H1) as (i1 & Hi1 & _).
      destruct (Htable e2 H2) as (i2 & Hi2 & _).
      unfold split_of; rewrite Hi1, Hi2.
      apply (Hclash e1 e2 i1 i2 k); assumption.
Qed.

Lemma unfold_composite_conserves_witness :
  exists r, unfold_composite Samples.light Samples.methane = Ok r
    /\ sum (Dict.values r) = sum (Dict.values Samples.methane).
Proof.
  apply unfold_composite_conserves.
  - apply wfb_wf; reflexivity.
  - intros element [<- | [<- | []]]; eexists;
      (split; [reflexivity |]); (split; [apply wfb_wf; reflexivity |]);
      apply Qc_eqb_eq; vm_compute; reflexivity.
  - intros e1 e2 i1 i2 k [<- | [<- | []]] [<- | [<- | []]] H1 H2 K1 K2;
      try reflexivity; exfalso;
      vm_compute in H1, H2; injection H1 as <-; injection H2 as <-;
      simpl in K1, K2; intuition congruence.
Defined.

(** Why the entries must hold each element's own isotopes: a table that
    files the symbol N1 under both X and Y, as X -> {N1: 1} and
    Y -> {N1: 1/4, N2: 3/4}, each summing to 1, unfolds {X: 1/2, Y: 1/2}
    to {N1: 1/8, N2: 3/8}, whose values sum to 1/2 and not to 1. *)
Lemma unfold_composite_loses_mass :
  (forall element isotopes, Samples.clashing element = Some isotopes ->
                            sum (Dict.values isotopes) = 1)
  /\ all_known Samples.clashing Samples.mix_XY
  /\ exists r, unfold_composite Samples.clashing Samples.mix_XY = Ok r
       /\ sum (Dict.values r) = frac 1 2
       /\ sum (Dict.values Samples.mix_XY) = 1
       /\ sum (Dict.values r) <> sum (Dict.values Samples.mix_XY).
Proof.
  split; [| split].
  - intros element isotopes; unfold Samples.clashing.
    destruct (String.eqb element "X");
      [| destruct (String.eqb element "Y"); [| discriminate]];
      intros [= <-]; apply Qc_eqb_eq; vm_compute; reflexivity.
  - intros element [<- | [<- | []]]; discriminate.
  - exists [("N1"%string, frac 1 8); ("N2"%string, frac 3 8)].
    split; [apply returns_Ok; vm_compute; reflexivity |].
    split; [apply Qc_eqb_eq; vm_compute; reflexivity |].
    split; [apply Qc_eqb_eq; vm_compute; reflexivity |].
    intros H; apply (f_equal this) in H; vm_compute in H; discriminate H.
Qed.

(** C7: for a composite whose elements all have an entry in the natural
    table, each entry being the split of that element into its own isotopes
    with fractions that sum to 1, the values of
    [unfold_composite(composite)] sum to the sum of the values of
    [composite], in exact rational arithmetic. *)
Theorem unfold_composite_conserves_mass
        (nuclide2element : string -> string)
        (natural : string -> option dict) (composite : dict) :
  Dict.wf composite ->
  (forall element, In element (Dict.keys composite) ->
     exists isotopes,
       natural element = Some isotopes
       /\ Dict.wf isotopes
       /\ (forall k, In k (Dict.keys isotopes) -> nuclide2element k = element)
       /\ sum (Dict.values isotopes) = 1) ->
  exists r, unfold_composite natural composite = Ok r
    /\ sum (Dict.values r) = sum (Dict.values composite).
Proof.
  intros Hwf Htable; apply unfold_composite_conserves; [exact Hwf | |].
  - intros el Hel; destruct (Htable el Hel) as (i & Hi & Hwfi & _ & Hsum).
    exists i; auto.
  - intros e1 e2 i1 i2 k H1 H2 Hi1 Hi2 K1 K2.
    destruct (Htable e1 H1) as (j1 & Hj1 & _ & Hown1 & _).
    destruct (Htable e2 H2) as (j2 & Hj2 & _ & Hown2 & _).
    assert (j1 = i1) as -> by congruence.
    assert (j2 = i2) as -> by congruence.
    rewrite <- (Hown1 k K1); exact (Hown2 k K2).
Qed.

Lemma unfold_composite_conserves_mass_witness :
  exists r, unfold_composite Samples.light Samples.methane = Ok r
    /\ sum (Dict.values r) = sum (Dict.values Samples.methane).
Proof.
  apply (unfold_composite_conserves_mass nuclide2element_model).
  - apply wfb_wf; reflexivity.
  - intros element [<- | [<- | []]]; eexists;
      (split; [reflexivity |]); (split; [apply wfb_wf; reflexivity |]);
      (split; [| apply Qc_eqb_eq; vm_compute; reflexivity]);
      intros k [<- | [<- | []]]; reflexivity.
Defined.



(** ** Symbol classifiers *)

Lemma np_prod_acc (xs : list bool) (a : Z) :
  fold_left Z.mul (map Z.b2z xs) a
  = (a * Z.b2z (forallb (fun b => b) xs))%Z.
Proof.
  revert a; induction xs as [| b xs IH]; simpl; intros a; [lia |].
  rewrite IH; destruct b; simpl; lia.
Qed.

Lemma py_bool_np_prod (xs : list bool) :
  py_bool (np_prod xs) = forallb (fun b => b) xs.
Proof.
  unfold np_prod, py_bool; rewrite np_prod_acc.
  destruct (forallb (fun b => b) xs); reflexivity.
Qed.

Lemma are_nuclides_forallb (keys : list string) :
  are_nuclides keys
  = forallb (fun k => str_isalnum k && negb (str_isalpha k)) keys.
Proof.
  unfold are_nuclides; rewrite !py_bool_np_prod.
  induction keys as [| k keys IH]; simpl; [reflexivity |].
  rewrite <- IH.
  destruct (str_isalnum k), (str_isalpha k); simpl;
    rewrite ?andb_false_r; reflexivity.
Qed.

Lemma digit_not_alpha (c : ascii) : is_digit c = true -> is_alpha c = false.
Proof.
  unfold is_digit, is_alpha; intros H.
  apply andb_true_iff in H as [H1 H2]; apply Nat.leb_le in H1, H2.
  apply orb_false_iff; split; apply andb_false_iff; left;
    apply Nat.leb_gt; lia.
Qed.

Lemma str_isalnum_all (s : string) :
  s <> EmptyString -> str_isalnum s = all_alnum s.
Proof. destruct s; [contradiction | reflexivity]. Qed.

Lemma str_isalpha_all (s : string) :
  s <> EmptyString -> str_isalpha s = all_alpha s.
Proof. destruct s; [contradiction | reflexivity]. Qed.

Lemma has_digit_not_all_alpha (s : string) :
  has_digit s = true -> s <> EmptyString /\ all_alpha s = false.
Proof.
  unfold has_digit, all_alpha; intros H.
  apply existsb_exists in H as (c & Hc & Hd); split.
  - intros ->; exact Hc.
  - destruct (forallb is_alpha (list_ascii_of_string s)) eqn:Hall;
      [| reflexivity].
    rewrite forallb_forall in Hall; specialize (Hall c Hc).
    rewrite (digit_not_alpha _ Hd) in Hall; discriminate Hall.
Qed.

Lemma has_non_alnum_not_isalnum (s : string) :
  has_non_alnum s = true -> str_isalnum s = false.
Proof.
  unfold has_non_alnum; intros H.
  apply existsb_exists in H as (c & Hc & Hn).
  assert (s <> EmptyString) as Hne by (intros ->; exact Hc).
  rewrite (str_isalnum_all Hne); unfold all_alnum.
  destruct (forallb is_alnum (list_ascii_of_string s)) eqn:Hall;
    [| reflexivity].
  rewrite forallb_forall in Hall; rewrite (Hall c Hc) in Hn; discriminate Hn.
Qed.

(** * Further properties *)

(** ** Classifiers, exactly *)

Lemma forallb_id_map {A : Type} (f : A -> bool) l :
  forallb (fun b => b) (map f l) = forallb f l.
Proof.
  induction l as [| x l IH]; simpl; [reflexivity | rewrite IH; reflexivity].
Qed.

Lemma str_isalpha_true (s : string) :
  str_isalpha s = true <-> s <> EmptyString /\ all_alpha s = true.
Proof.
  destruct s as [| c s]; simpl.
  - split; [discriminate | intros [H _]; contradiction].
  - split; [intros H; split; [discriminate | exact H] | intros [_ H]; exact H].
Qed.

Lemma alnum_not_alpha_digit (s : string) :
  all_alnum s = true -> all_alpha s = false -> has_digit s = true.
Proof.
  unfold all_alnum, all_alpha, has_digit.
  induction (list_ascii_of_string s) as [| c l IH]; simpl; [discriminate |].
  intros Hn Ha; apply andb_true_iff in Hn as [Hc Hl].
  unfold is_alnum in Hc; destruct (is_alpha c); simpl in *.
  - rewrite (IH Hl Ha); apply orb_true_r.
  - rewrite Hc; reflexivity.
Qed.

Lemma are_nuclides_each (keys : list string) :
  are_nuclides keys = true
  <-> (forall k, In k keys ->
                 str_isalnum k = true /\ str_isalpha k = false).
Proof.
  rewrite are_nuclides_forallb, forallb_forall; split; intros H k Hk.
  - specialize (H k Hk); apply andb_true_iff in H as [Hn Ha].
    apply negb_true_iff in Ha; split; assumption.
  - destruct (H k Hk) as [Hn Ha]; rewrite Hn, Ha; reflexivity.
Qed.

Lemma str_isalnum_true (s : string) :
  str_isalnum s = true <-> s <> EmptyString /\ all_alnum s = true.
Proof.
  destruct s as [| c s]; simpl.
  - split; [discriminate | intros [H _]; contradiction].
  - split; [intros H; split; [discriminate | exact H] | intros [_ H]; exact H].
Qed.

(** No non-empty set of symbols passes both [are_elements] and
    [are_nuclides]; the empty set passes both. *)
Theorem elements_and_nuclides_exclusive (keys : list string) :
  keys <> [] -> are_elements keys && are_nuclides keys = false.
Proof.
  intros Hne; destruct keys as [| k keys]; [contradiction |].
  destruct (are_elements (k :: keys)) eqn:He; [| reflexivity].
  destruct (are_nuclides (k :: keys)) eqn:Hn; [| reflexivity].
  unfold are_elements in He.
  rewrite py_bool_np_prod, forallb_id_map in He; simpl in He.
  apply andb_true_iff in He as [Ha _].
  destruct (proj1 (are_nuclides_each _) Hn k (or_introl eq_refl)) as [_ Hna].
  congruence.
Qed.

Lemma elements_and_nuclides_exclusive_witness :
  are_elements ["U235"; "H1"]%string && are_nuclides ["U235"; "H1"]%string
  = false
  /\ are_elements [] && are_nuclides [] = true.
Proof.
  split; [apply elements_and_nuclides_exclusive; discriminate | reflexivity].
Defined.

(** ** [get_existing_xs] *)

Lemma lstrip_chars_spaces (ws l : list ascii) :
  forallb is_space ws = true -> lstrip_chars (ws ++ l) = lstrip_chars l.
Proof.
  induction ws as [| c ws IH]; simpl; [reflexivity |].
  intros H; apply andb_true_iff in H as [Hc Hws].
  rewrite Hc; exact (IH Hws).
Qed.

Lemma lstrip_chars_keeps (l : list ascii) :
  (forall c, hd_error l = Some c -> is_space c = false) ->
  lstrip_chars l = l.
Proof.
  destruct l as [| c l]; simpl; intros H; [reflexivity |].
  rewrite (H c eq_refl); reflexivity.
Qed.

Lemma strip_chars_core (w ws : list ascii) :
  (forall c, In c w -> is_space c = false) ->
  forallb is_space ws = true ->
  strip_chars (w ++ ws) = w.
Proof.
  intros Hw Hws; unfold strip_chars.
  assert (forallb is_space (rev ws) = true) as Hrev.
  { rewrite forallb_forall in *; intros x Hx; apply Hws, in_rev, Hx. }
  destruct w as [| c w].
  - simpl; assert (lstrip_chars ws = []) as ->; [| reflexivity].
    rewrite <- (app_nil_r ws), lstrip_chars_spaces by exact Hws; reflexivity.
  - rewrite (lstrip_chars_keeps ((c :: w) ++ ws))
      by (simpl; intros x [= <-]; apply Hw; left; reflexivity).
    rewrite rev_app_distr, (lstrip_chars_spaces _ (rev (c :: w)) Hrev).
    rewrite lstrip_chars_keeps; [apply rev_involutive |].
    intros x Hx; apply Hw, in_rev.
    destruct (rev (c :: w)) as [| y t]; [discriminate Hx |].
    injection Hx as <-; left; reflexivity.
Qed.

Lemma list_ascii_of_string_app (s1 s2 : string) :
  list_ascii_of_string (s1 ++ s2)
  = list_ascii_of_string s1 ++ list_ascii_of_string s2.
Proof.
  induction s1 as [| c s1 IH]; simpl; [reflexivity | rewrite IH; reflexivity].
Qed.

Lemma alnum_not_space (c : ascii) : is_alnum c = true -> is_space c = false.
Proof.
  unfold is_alnum, is_alpha, is_digit, is_space; intros H.
  repeat match type of H with
         | (_ || _)%bool = true => apply orb_true_iff in H as [H | H]
         | (_ && _)%bool = true =>
             let H1 := fresh in let H2 := fresh in
             apply andb_true_iff in H as [H1 H2];
             apply Nat.leb_le in H1, H2
         end;
    apply orb_false_iff; split; apply andb_false_iff;
    first [ left; apply Nat.leb_gt; lia | right; apply Nat.leb_gt; lia ].
Qed.

Lemma strip_line_of (symbol : string) :
  all_alnum symbol = true -> strip (line_of symbol) = symbol.
Proof.
  intros H; unfold strip, line_of; rewrite list_ascii_of_string_app; simpl.
  rewrite strip_chars_core.
  - apply string_of_list_ascii_of_string.
  - unfold all_alnum in H; rewrite forallb_forall in H.
    intros c Hc; apply alnum_not_space, H, Hc.
  - reflexivity.
Qed.

Lemma strip_blank (line : string) : blank line = true -> strip line = EmptyString.
Proof.
  unfold blank, strip, strip_chars; intros H.
  assert (lstrip_chars (list_ascii_of_string line) = []) as ->; [| reflexivity].
  rewrite <- (app_nil_r (list_ascii_of_string line)).
  rewrite lstrip_chars_spaces by exact H; reflexivity.
Qed.

(** On a file that lists symbols in nuclide format, one per line, the set
    returned holds these symbols and passes [are_nuclides]. *)
Theorem get_existing_xs_nuclides (symbols : list string) :
  are_nuclides symbols = true ->
  (forall s, In s (get_existing_xs (map line_of symbols)) <-> In s symbols)
  /\ are_nuclides (get_existing_xs (map line_of symbols)) = true.
Proof.
  intros Hn.
  assert (forall k, In k symbols ->
                    str_isalnum k = true /\ str_isalpha k = false)
    as Hfmt by (apply are_nuclides_each; exact Hn).
  assert (forall k, In k symbols -> all_alnum k = true) as Halnum
      by (intros k Hk; apply str_isalnum_true, Hfmt, Hk).
  assert (forall s, In s (get_existing_xs (map line_of symbols))
                    <-> In s symbols) as Hin.
  { intros s; unfold get_existing_xs; rewrite nodup_In, map_map, in_map_iff.
    split.
    - intros (k & Hk & Hs).
      rewrite strip_line_of in Hk by (apply Halnum; exact Hs); subst; exact Hs.
    - intros Hs; exists s; split;
        [apply strip_line_of, Halnum; exact Hs | exact Hs]. }
  split; [exact Hin |].
  apply are_nuclides_each; intros k Hk; apply Hfmt, Hin, Hk.
Qed.

Lemma get_existing_xs_nuclides_witness :
  are_nuclides (get_existing_xs (map line_of ["U235"; "H1"; "U235"]%string))
  = true.
Proof.
  apply (proj2 (get_existing_xs_nuclides ["U235"; "H1"; "U235"]%string
                  eq_refl)).
Defined.

(** A line of white space only, such as an empty last line, puts the empty
    string in the set, and the set then fails [are_nuclides]. *)
Theorem get_existing_xs_blank_line (readlines : list string) (line : string) :
  In line readlines -> blank line = true ->
  In EmptyString (get_existing_xs readlines)
  /\ are_nuclides (get_existing_xs readlines) = false.
Proof.
  intros Hin Hblank.
  assert (In EmptyString (get_existing_xs readlines)) as Hempty.
  { unfold get_existing_xs; apply nodup_In, in_map_iff.
    exists line; split; [apply strip_blank; exact Hblank | exact Hin]. }
  split; [exact Hempty |].
  destruct (are_nuclides (get_existing_xs readlines)) eqn:Hn; [| reflexivity].
  destruct (proj1 (are_nuclides_each _) Hn EmptyString Hempty) as [Hd _].
  discriminate Hd.
Qed.

Lemma get_existing_xs_blank_line_witness :
  In EmptyString
     (get_existing_xs [line_of "U235"; line_of ""; line_of "H1"]%string)
  /\ are_nuclides
       (get_existing_xs [line_of "U235"; line_of ""; line_of "H1"]%string)
     = false.
Proof.
  apply (@get_existing_xs_blank_line _ (line_of "")).
  - right; left; reflexivity.
  - reflexivity.
Defined.

(** ** [pollute], further *)

Lemma contains_setitem {V : Type} (d : Dict.t V) k v n :
  Dict.contains (Dict.setitem d k v) n = String.eqb n k || Dict.contains d n.
Proof.
  destruct (Dict.contains (Dict.setitem d k v) n) eqn:H.
  - apply contains_In, keys_setitem_In in H as [-> | H].
    + rewrite String.eqb_refl; reflexivity.
    + apply contains_In in H; rewrite H; symmetry; apply orb_true_r.
  - apply contains_false in H; symmetry; apply orb_false_iff; split.
    + apply String.eqb_neq; intros ->; apply H, keys_setitem_In.
      left; reflexivity.
    + apply contains_false; intros Hn; apply H, keys_setitem_In.
      right; exact Hn.
Qed.

Lemma keys_setitem {V : Type} (d : Dict.t V) k v :
  Dict.keys (Dict.setitem d k v)
  = if Dict.contains d k then Dict.keys d else Dict.keys d ++ [k].
Proof.
  unfold Dict.contains, Dict.keys.
  induction d as [| [k' v'] d IH]; simpl; [reflexivity |].
  destruct (String.eqb k k'); simpl; [reflexivity |].
  rewrite IH; destruct (existsb (String.eqb k) (map fst d)); reflexivity.
Qed.

(** The order of the keys after a sequence of stores with distinct keys:
    the keys already there, then the new ones as they come. *)
Lemma keys_update_order {V : Type} (kvs : list (string * V)) (d : Dict.t V) :
  NoDup (map fst kvs) ->
  Dict.keys (Dict.update d kvs)
  = Dict.keys d
    ++ filter (fun k => negb (Dict.contains d k)) (map fst kvs).
Proof.
  unfold Dict.update; revert d.
  induction kvs as [| [k v] kvs IH]; simpl; intros d Hnd.
  - symmetry; apply app_nil_r.
  - inversion Hnd as [| ? ? Hnotin Hnd']; subst.
    rewrite (IH _ Hnd'), keys_setitem.
    assert (filter (fun n => negb (Dict.contains (Dict.setitem d k v) n))
                   (map fst kvs)
            = filter (fun n => negb (Dict.contains d n)) (map fst kvs)) as ->.
    { apply filter_ext_in; intros n Hn; rewrite contains_setitem.
      destruct (String.eqb_spec n k) as [-> | _]; [contradiction | reflexivity]. }
    destruct (Dict.contains d k); simpl; [reflexivity |].
    rewrite <- app_assoc; reflexivity.
Qed.

(** [pollute] never raises.  Its result has the keys of both mappings and no
    other: the pollutants' keys in their order, followed by the keys of
    [abundance] that are not pollutant keys, in their order. *)
Theorem pollute_returns_keys (abundance pollutants : dict) :
  exists r, pollute abundance pollutants = Ok r
    /\ (forall k, In k (Dict.keys r)
                  <-> In k (Dict.keys pollutants) \/ In k (Dict.keys abundance))
    /\ (Dict.wf abundance ->
        Dict.keys r
        = Dict.keys pollutants
          ++ filter (fun k => negb (Dict.contains pollutants k))
                    (Dict.keys abundance)).
Proof.
  eexists; split; [apply pollute_returns |]; split.
  - intros k; rewrite keys_update_In, map_keyed_fst; reflexivity.
  - intros Hwf; rewrite keys_update_order, map_keyed_fst; [reflexivity |].
    rewrite map_keyed_fst; exact Hwf.
Qed.

Lemma pollute_returns_keys_witness :
  exists r, pollute Samples.halves Samples.tenth_A = Ok r
    /\ Dict.keys r = ["A"; "B"]%string.
Proof.
  destruct (pollute_returns_keys Samples.halves Samples.tenth_A)
    as (r & Hr & _ & Hkeys).
  exists r; split; [exact Hr |].
  rewrite Hkeys by (apply wfb_wf; reflexivity); reflexivity.
Defined.

(** When the two mappings share no key, the values of the polluted
    composition sum to [P + (1 - P) * A], with [P] the sum of the pollutant
    fractions and [A] the sum of the base abundances; a base composition
    that sums to 1 gives a polluted composition that sums to 1. *)
Theorem pollute_total (abundance pollutants : dict) :
  Dict.wf abundance -> Dict.wf pollutants ->
  (forall k, In k (Dict.keys abundance) -> ~ In k (Dict.keys pollutants)) ->
  exists r, pollute abundance pollutants = Ok r
    /\ sum (Dict.values r)
       = sum (Dict.values pollutants)
         + (1 - sum (Dict.values pollutants)) * sum (Dict.values abundance)
    /\ (sum (Dict.values abundance) = 1 -> sum (Dict.values r) = 1).
Proof.
  intros Hwa Hwp Hdisj.
  eexists; split; [apply pollute_returns |].
  assert (sum (Dict.values
                 (Dict.update pollutants
                    (map (fun kv => (fst kv,
                                     rescaled abundance pollutants (fst kv)))
                         abundance)))
          = sum (Dict.values pollutants)
            + (1 - sum (Dict.values pollutants)) * sum (Dict.values abundance))
    as Hsum.
  { rewrite update_fresh.
    - unfold Dict.values at 1; rewrite map_app, sum_app, map_map; simpl.
      rewrite (@sum_map_ext _
                 (fun kv => rescaled abundance pollutants (fst kv))
                 (fun kv => snd kv * (1 - sum (Dict.values pollutants)))
                 abundance).
      + rewrite (sum_map_scale snd); unfold Dict.values; ring.
      + intros [k v] Hkv; simpl; apply rescaled_wf, wf_get; assumption.
    - rewrite map_keyed_fst; apply NoDup_app; [exact Hwp | exact Hwa |].
      intros k Hp Ha; exact (Hdisj k Ha Hp). }
  split; [exact Hsum |].
  intros Hone; rewrite Hsum, Hone; ring.
Qed.

Lemma pollute_total_witness :
  exists r, pollute Samples.water Samples.tenth_C = Ok r
    /\ sum (Dict.values r) = 1.
Proof.
  destruct (@pollute_total Samples.water Samples.tenth_C)
    as (r & Hr & _ & Hone).
  - apply wfb_wf; reflexivity.
  - apply wfb_wf; reflexivity.
  - intros k Hk [Hc | []]; subst k; vm_compute in Hk; intuition discriminate.
  - exists r; split; [exact Hr |].
    apply Hone, Qc_eqb_eq; vm_compute; reflexivity.
Defined.

(** ** [enrich]: when it returns and what it raises *)

Lemma first_missing_None (abundance enrichers : dict) :
  first_missing abundance enrichers = None
  <-> (forall k, In k (Dict.keys enrichers) -> In k (Dict.keys abundance)).
Proof.
  unfold first_missing; split.
  - intros H k Hk; apply contains_In.
    apply (find_none _ _ H) in Hk; apply negb_false_iff; exact Hk.
  - intros H; destruct (find _ _) as [k |] eqn:Hf; [| reflexivity].
    apply find_some in Hf as [Hk Hc]; apply negb_true_iff in Hc.
    apply contains_false in Hc; exfalso; apply Hc, H, Hk.
Qed.

Lemma has_unlisted_true (nuclide2element : string -> string)
      (abundance enrichers : dict) (E : string) :
  has_unlisted nuclide2element abundance enrichers E = true
  <-> (exists k, In k (Dict.keys abundance) /\ nuclide2element k = E
                 /\ ~ In k (Dict.keys enrichers)).
Proof.
  unfold has_unlisted; rewrite existsb_exists; split.
  - intros (k & Hk & H); apply andb_true_iff in H as [Hel Hc].
    apply String.eqb_eq in Hel; apply negb_true_iff, contains_false in Hc.
    exists k; auto.
  - intros (k & Hk & Hel & Hc); exists k; split; [exact Hk |].
    apply andb_true_iff; split; [apply String.eqb_eq; exact Hel |].
    apply negb_true_iff, contains_false; exact Hc.
Qed.

(** The comprehension of the differences stops at the first enricher key
    that [abundance] lacks. *)
Lemma enrich_delta_missing (abundance enrichers : dict) k :
  first_missing abundance enrichers = Some k ->
  enrich_delta abundance enrichers = Raise (KeyError k).
Proof.
  unfold first_missing, enrich_delta, Dict.keys, Dict.items.
  induction enrichers as [| [k' v] l IH]; simpl; [discriminate |].
  destruct (Dict.contains abundance k') eqn:Hc; simpl.
  - intros H; apply contains_In in Hc; rewrite (getitem_key _ _ Hc); simpl.
    specialize (IH H); destruct (comprehension _ l); simpl in *;
      [discriminate IH | exact IH].
  - intros [= <-]; apply contains_false, get_None in Hc.
    unfold Dict.getitem; rewrite Hc; reflexivity.
Qed.

(** Items that do not reach the redistribution branch always evaluate. *)
Lemma enrich_item_plain (nuclide2element : string -> string)
      (abundance enrichers : dict) (E k : string) (x : Qc) :
  In k (Dict.keys abundance) ->
  Dict.contains enrichers k = true \/ nuclide2element k <> E ->
  enrich_item nuclide2element abundance enrichers E k x
  = Ok (enriched_value nuclide2element abundance enrichers E k x).
Proof.
  intros Hk H; unfold enrich_item, enriched_value.
  destruct (Dict.contains enrichers k) eqn:Hc.
  - apply getitem_key, contains_In; exact Hc.
  - destruct H as [H | H]; [discriminate H |].
    destruct (String.eqb_spec (nuclide2element k) E) as [Heq | _];
      [contradiction |].
    simpl; apply getitem_key; exact Hk.
Qed.

Lemma enrich_missing_key_raises
      (nuclide2element : string -> string) (abundance enrichers : dict)
      (E k : string) :
  enriched_element_of nuclide2element enrichers = Ok E ->
  has_unlisted nuclide2element abundance enrichers E = true ->
  first_missing abundance enrichers = Some k ->
  enrich nuclide2element abundance enrichers = Raise (KeyError k).
Proof.
  intros HE Hun Hmiss; apply has_unlisted_true in Hun as (k0 & Hk0 & Hel0 & Hc0).
  rewrite enrich_unfold, HE; simpl.
  rewrite comprehension_Raise with (e := KeyError k); [reflexivity | |].
  - intros [n x] Hnx; simpl.
    assert (In n (Dict.keys abundance)) as Hn by (eapply In_keys; exact Hnx).
    destruct (Dict.contains enrichers n) eqn:Hc;
      [left; eexists; apply enrich_item_plain; auto |].
    destruct (String.eqb_spec (nuclide2element n) E) as [Hel | Hel];
      [| left; eexists; apply enrich_item_plain; auto].
    right; unfold enrich_item; rewrite Hc, Hel, String.eqb_refl; simpl.
    rewrite (getitem_key _ _ Hn); simpl.
    rewrite (enrich_delta_missing _ _ Hmiss); reflexivity.
  - destruct (get_In_keys _ _ Hk0) as [x0 Hx0].
    exists (k0, x0); split; [apply get_Some_In; exact Hx0 |].
    simpl; unfold enrich_item.
    apply contains_false in Hc0; rewrite Hc0, Hel0, String.eqb_refl; simpl.
    rewrite (getitem_key _ _ Hk0); simpl.
    rewrite (enrich_delta_missing _ _ Hmiss); reflexivity.
Qed.

(** When no item can fail, [enrich] returns the stores of the values. *)
Lemma enrich_returns_values
      (nuclide2element : string -> string) (abundance enrichers : dict)
      (E : string) :
  enriched_element_of nuclide2element enrichers = Ok E ->
  (has_unlisted nuclide2element abundance enrichers E = true ->
   first_missing abundance enrichers = None
   /\ enrich_capacity nuclide2element abundance enrichers E <> 0) ->
  enrich nuclide2element abundance enrichers
  = Ok (Dict.update []
          (map (fun kv => (fst kv,
                           enriched_value nuclide2element abundance enrichers
                                          E (fst kv) (snd kv)))
               abundance)).
Proof.
  intros HE Hsafe.
  apply (enrich_values nuclide2element abundance enrichers
           (enriched_value nuclide2element abundance enrichers E) HE).
  intros k x Hkx.
  assert (In k (Dict.keys abundance)) as Hk by (eapply In_keys; exact Hkx).
  destruct (Dict.contains enrichers k) eqn:Hc;
    [apply enrich_item_plain; auto |].
  destruct (String.eqb_spec (nuclide2element k) E) as [Hel | Hel];
    [| apply enrich_item_plain; auto].
  destruct Hsafe as [Hknown HS].
  { apply has_unlisted_true; exists k; split; [exact Hk |].
    split; [exact Hel | apply contains_false; exact Hc]. }
  unfold enrich_item, enriched_value.
  rewrite Hc, Hel, String.eqb_refl; simpl.
  rewrite (getitem_key _ _ Hk); simpl.
  rewrite enrich_delta_returns by (apply first_missing_None; exact Hknown).
  simpl; unfold truediv.
  destruct (Qc_eq_dec _ 0) as [Hz | _]; [contradiction | reflexivity].
Qed.

(** Conversely, a call that returns met these conditions. *)
Lemma enrich_returned
      (nuclide2element : string -> string) (abundance enrichers : dict)
      (r : dict) :
  enrich nuclide2element abundance enrichers = Ok r ->
  exists E,
    enriched_element_of nuclide2element enrichers = Ok E
    /\ (has_unlisted nuclide2element abundance enrichers E = true ->
        first_missing abundance enrichers = None
        /\ enrich_capacity nuclide2element abundance enrichers E <> 0).
Proof.
  intros Hr; destruct (enrich_inv _ _ _ Hr) as (E & _ & HE & _).
  exists E; split; [exact HE |]; intros Hun.
  destruct (first_missing abundance enrichers) as [k |] eqn:Hmiss.
  - rewrite (enrich_missing_key_raises _ _ _ HE Hun Hmiss) in Hr.
    discriminate Hr.
  - split; [reflexivity |]; intros HS.
    rewrite (@enrich_zero_capacity_raises nuclide2element abundance
               enrichers E HE) in Hr; [discriminate Hr | | | exact HS].
    + apply first_missing_None; exact Hmiss.
    + apply has_unlisted_true; exact Hun.
Qed.

Lemma get_update_map_const {A V : Type} (l : list (string * A))
      (g : string * A -> V) (d : Dict.t V) n x :
  (forall kv, In kv l -> fst kv = n -> g kv = x) ->
  Dict.get (Dict.update d (map (fun kv => (fst kv, g kv)) l)) n
  = if Dict.contains l n then Some x else Dict.get d n.
Proof.
  unfold Dict.update, Dict.contains, Dict.keys; revert d.
  induction l as [| [k a] l IH]; simpl; intros d Hg; [reflexivity |].
  rewrite IH by (intros kv Hkv; apply Hg; right; exact Hkv).
  rewrite get_setitem.
  destruct (existsb (String.eqb n) (map fst l)); simpl.
  - rewrite orb_true_r; reflexivity.
  - rewrite orb_false_r.
    destruct (String.eqb_spec n k) as [-> | Hne]; [| reflexivity].
    rewrite (Hg (k, a) (or_introl eq_refl) eq_refl); reflexivity.
Qed.

(** Reading one key of the result of a call that returned. *)
Lemma enrich_get
      (nuclide2element : string -> string) (abundance enrichers : dict)
      (E : string) (r : dict) (n : string) (v : Qc) :
  enriched_element_of nuclide2element enrichers = Ok E ->
  enrich nuclide2element abundance enrichers = Ok r ->
  In n (Dict.keys abundance) ->
  (forall x, In (n, x) abundance ->
             enriched_value nuclide2element abundance enrichers E n x = v) ->
  Dict.get r n = Some v.
Proof.
  intros HE Hr Hn Hv.
  destruct (enrich_returned _ _ _ Hr) as (E' & HE' & Hsafe).
  assert (E' = E) as -> by congruence.
  rewrite (enrich_returns_values _ _ _ HE Hsafe) in Hr; injection Hr as <-.
  rewrite (get_update_map_const abundance
             (fun kv => enriched_value nuclide2element abundance enrichers E
                                       (fst kv) (snd kv)) [] (n := n) (x := v)).
  - apply contains_In in Hn; rewrite Hn; reflexivity.
  - intros [k x] Hkx Hk; simpl in *; subst k; apply Hv; exact Hkx.
Qed.

(** [enrich] returns exactly when [enrichers] is not empty and either no
    nuclide of the target element is left out of [enrichers], or every
    enricher key is a key of [abundance] and the abundances of the nuclides
    left out do not sum to zero. *)
Theorem enrich_returns_exactly
        (nuclide2element : string -> string) (abundance enrichers : dict) :
  (exists r, enrich nuclide2element abundance enrichers = Ok r)
  <-> (exists E,
         enriched_element_of nuclide2element enrichers = Ok E
         /\ (has_unlisted nuclide2element abundance enrichers E = true ->
             first_missing abundance enrichers = None
             /\ enrich_capacity nuclide2element abundance enrichers E <> 0)).
Proof.
  split.
  - intros [r Hr]; exact (enrich_returned _ _ _ Hr).
  - intros (E & HE & Hsafe); eexists.
    apply enrich_returns_values; eassumption.
Qed.

Lemma enrich_returns_exactly_witness :
  exists r, enrich nuclide2element_model Samples.water Cases.with_U234 = Ok r.
Proof.
  apply enrich_returns_exactly; exists "U"%string; split; [reflexivity |].
  intros H; vm_compute in H; discriminate H.
Defined.

(** What [enrich] raises: [IndexError] on an empty [enrichers]; and, when a
    nuclide of the target element is left out of [enrichers], [KeyError] for
    the first enricher key that [abundance] lacks, or [ZeroDivisionError]
    when no key is lacking and the abundances of the nuclides left out sum
    to zero. *)
Theorem enrich_raises
        (nuclide2element : string -> string) (abundance enrichers : dict)
        (E : string) :
  enrich nuclide2element abundance [] = Raise IndexError
  /\ (enriched_element_of nuclide2element enrichers = Ok E ->
      has_unlisted nuclide2element abundance enrichers E = true ->
      (forall k, first_missing abundance enrichers = Some k ->
                 enrich nuclide2element abundance enrichers
                 = Raise (KeyError k))
      /\ (first_missing abundance enrichers = None ->
          enrich_capacity nuclide2element abundance enrichers E = 0 ->
          enrich nuclide2element abundance enrichers
          = Raise ZeroDivisionError)).
Proof.
  split; [reflexivity |]; intros HE Hun; split.
  - intros k Hk; exact (enrich_missing_key_raises _ _ _ HE Hun Hk).
  - intros Hnone HS; apply (@enrich_zero_capacity_raises _ _ _ E HE).
    + apply first_missing_None; exact Hnone.
    + apply has_unlisted_true; exact Hun.
    + exact HS.
Qed.

Lemma enrich_raises_witness :
  enrich nuclide2element_model Samples.uranium Cases.with_U234
  = Raise (KeyError "U234")
  /\ enrich nuclide2element_model Samples.pure_U235 Samples.all_U235
     = Raise ZeroDivisionError.
Proof.
  split.
  - apply (proj2 (enrich_raises nuclide2element_model Samples.uranium
                    Cases.with_U234 "U")); reflexivity.
  - apply (proj2 (enrich_raises nuclide2element_model Samples.pure_U235
                    Samples.all_U235 "U")); reflexivity.
Defined.

(** When [enrich] returns, every key of [abundance] that is an enricher key
    has the enricher value in the result. *)
Theorem enrich_imposes
        (nuclide2element : string -> string) (abundance enrichers : dict)
        (r : dict) (n : string) :
  enrich nuclide2element abundance enrichers = Ok r ->
  In n (Dict.keys abundance) ->
  In n (Dict.keys enrichers) ->
  Dict.get r n = Dict.get enrichers n.
Proof.
  intros Hr Ha He; destruct (enrich_returned _ _ _ Hr) as (E & HE & _).
  rewrite (value_of_get _ _ He).
  apply (enrich_get _ _ _ n HE Hr Ha).
  intros x _; unfold enriched_value.
  apply contains_In in He; rewrite He; reflexivity.
Qed.

Lemma enrich_imposes_witness :
  Dict.get Samples.uranium_5_percent "U235"
  = Dict.get Samples.reactor_grade "U235".
Proof.
  apply (@enrich_imposes nuclide2element_model Samples.uranium
           Samples.reactor_grade).
  - apply returns_Ok; vm_compute; reflexivity.
  - left; reflexivity.
  - left; reflexivity.
Defined.

(** When [enrich] returns, a nuclide of the target element that is not an
    enricher key goes from [x] to [x - D * x / S], with [D] the net
    abundance added to the enriched nuclides and [S], which is then not
    zero, the total abundance of the nuclides left out. *)
Theorem enrich_redistributes
        (nuclide2element : string -> string) (abundance enrichers : dict)
        (E : string) (r : dict) (n : string) (x : Qc) :
  Dict.wf abundance ->
  enriched_element_of nuclide2element enrichers = Ok E ->
  enrich nuclide2element abundance enrichers = Ok r ->
  Dict.get abundance n = Some x ->
  ~ In n (Dict.keys enrichers) ->
  nuclide2element n = E ->
  enrich_capacity nuclide2element abundance enrichers E <> 0
  /\ Dict.get r n
     = Some (x - net_added abundance enrichers * x
                 / enrich_capacity nuclide2element abundance enrichers E).
Proof.
  intros Hwf HE Hr Hx Hout Hel.
  assert (In n (Dict.keys abundance)) as Hn
      by (eapply In_keys, get_Some_In; exact Hx).
  split.
  - destruct (enrich_returned _ _ _ Hr) as (E' & HE' & Hsafe).
    assert (E' = E) as -> by congruence.
    apply Hsafe, has_unlisted_true; exists n; auto.
  - apply (enrich_get _ _ _ n HE Hr Hn).
    intros x' Hx'; unfold enriched_value, value_of.
    apply contains_false in Hout.
    rewrite Hout, Hel, String.eqb_refl, Hx.
    rewrite (@wf_get _ abundance n x' Hwf Hx') in Hx; injection Hx as ->.
    reflexivity.
Qed.

Lemma enrich_redistributes_witness :
  Dict.get Samples.uranium_5_percent "U238"
  = Some (frac 99 100
          - net_added Samples.uranium Samples.reactor_grade * frac 99 100
            / enrich_capacity nuclide2element_model Samples.uranium
                              Samples.reactor_grade "U").
Proof.
  apply (@enrich_redistributes nuclide2element_model Samples.uranium
           Samples.reactor_grade "U" Samples.uranium_5_percent "U238").
  - apply wfb_wf; reflexivity.
  - reflexivity.
  - apply returns_Ok; vm_compute; reflexivity.
  - reflexivity.
  - intros [H | []]; discriminate H.
  - reflexivity.
Defined.

(** In exact arithmetic, the nuclides of the target element that are not
    enricher keys keep their proportions: for two of them, with abundances
    [x] and [y] before and [x'] and [y'] after, [x' * y = y' * x]. *)
Theorem enrich_keeps_proportions
        (nuclide2element : string -> string) (abundance enrichers : dict)
        (E : string) (r : dict) (n m : string) (x y x' y' : Qc) :
  Dict.wf abundance ->
  enriched_element_of nuclide2element enrichers = Ok E ->
  enrich nuclide2element abundance enrichers = Ok r ->
  Dict.get abundance n = Some x -> Dict.get abundance m = Some y ->
  ~ In n (Dict.keys enrichers) -> ~ In m (Dict.keys enrichers) ->
  nuclide2element n = E -> nuclide2element m = E ->
  Dict.get r n = Some x' -> Dict.get r m = Some y' ->
  x' * y = y' * x.
Proof.
  intros Hwf HE Hr Hx Hy Hn Hm Heln Helm Hx' Hy'.
  assert (In n (Dict.keys abundance)) as Hina
      by (eapply In_keys, get_Some_In; exact Hx).
  assert (In m (Dict.keys abundance)) as Hinm
      by (eapply In_keys, get_Some_In; exact Hy).
  assert (forall k z, Dict.get abundance k = Some z ->
            In k (Dict.keys abundance) -> ~ In k (Dict.keys enrichers) ->
            nuclide2element k = E ->
            Dict.get r k
            = Some (z - net_added abundance enrichers * z
                        / enrich_capacity nuclide2element abundance
                                          enrichers E)) as Hval.
  { intros k z Hz Hk Hout Hel; apply (enrich_get _ _ _ k HE Hr Hk).
    intros z' Hz'; unfold enriched_value, value_of.
    apply contains_false in Hout.
    rewrite Hout, Hel, String.eqb_refl, Hz.
    rewrite (@wf_get _ abundance k z' Hwf Hz') in Hz; injection Hz as ->.
    reflexivity. }
  rewrite (Hval n x Hx Hina Hn Heln) in Hx'; injection Hx' as <-.
  rewrite (Hval m y Hy Hinm Hm Helm) in Hy'; injection Hy' as <-.
  unfold Qcdiv; ring.
Qed.

Lemma enrich_keeps_proportions_witness :
  frac 1 120 * frac 95 100 = frac 19 24 * frac 1 100.
Proof.
  apply (@enrich_keeps_proportions nuclide2element_model Cases.three_isotopes
           Cases.twenty_percent "U" Cases.three_isotopes_at_20
           "U234" "U238").
  - apply wfb_wf; reflexivity.
  - reflexivity.
  - apply returns_Ok; vm_compute; reflexivity.
  - reflexivity.
  - reflexivity.
  - intros [H | []]; discriminate H.
  - intros [H | []]; discriminate H.
  - reflexivity.
  - reflexivity.
  - reflexivity.
  - reflexivity.
Defined.

Lemma retargeted_all (nuclide2element : string -> string)
      (abundance enrichers : dict) (E : string) :
  (forall k, In k (Dict.keys enrichers) -> nuclide2element k = E) ->
  retargeted nuclide2element abundance enrichers E
  = filter (fun kv => Dict.contains enrichers (fst kv)) abundance.
Proof.
  intros Hone; unfold retargeted; rewrite filter_twice.
  apply filter_ext; intros [k x]; simpl.
  destruct (Dict.contains enrichers k) eqn:Hc; [| apply andb_false_r].
  apply contains_In, Hone in Hc; rewrite Hc, String.eqb_refl; reflexivity.
Qed.

(** Under the conditions of the conservation within the target element
    (enricher keys all of that element and all keys of [abundance], with a
    non-zero total left to absorb the change), [enrich] also leaves the sum
    of the whole composition unchanged. *)
Theorem enrich_conserves_total
        (nuclide2element : string -> string) (abundance enrichers : dict)
        (E : string) :
  Dict.wf abundance ->
  Dict.wf enrichers ->
  enriched_element_of nuclide2element enrichers = Ok E ->
  (forall k, In k (Dict.keys enrichers) -> nuclide2element k = E) ->
  (forall k, In k (Dict.keys enrichers) -> In k (Dict.keys abundance)) ->
  enrich_capacity nuclide2element abundance enrichers E <> 0 ->
  exists r, enrich nuclide2element abundance enrichers = Ok r
    /\ sum (Dict.values r) = sum (Dict.values abundance).
Proof.
  intros Hwa Hwe HE Hone Hknown HS.
  eexists; split.
  { apply enrich_returns_values; [exact HE |].
    intros _; split; [apply first_missing_None; exact Hknown | exact HS]. }
  rewrite update_fresh by (simpl; rewrite map_map; exact Hwa).
  simpl; unfold Dict.values; rewrite map_map; simpl.
  set (val := fun kv : string * Qc =>
                enriched_value nuclide2element abundance enrichers E
                               (fst kv) (snd kv)).
  set (in_e := fun kv : string * Qc => Dict.contains enrichers (fst kv)).
  set (is_E := fun kv : string * Qc =>
                 String.eqb (nuclide2element (fst kv)) E).
  set (out := filter (fun kv => negb (in_e kv)) abundance).
  set (S := enrich_capacity nuclide2element abundance enrichers E) in *.
  set (D := net_added abundance enrichers).
  rewrite (@sum_filter_split _ val in_e abundance).
  rewrite (@sum_filter_split _ snd in_e abundance).
  fold out.
  rewrite (@sum_filter_split _ val is_E out).
  rewrite (@sum_filter_split _ snd is_E out).
  assert (filter in_e abundance
          = retargeted nuclide2element abundance enrichers E) as ->
      by (symmetry; apply retargeted_all; exact Hone).
  assert (sum (map snd (filter is_E out)) = S) as HSE.
  { unfold S, enrich_capacity, out, Dict.items; rewrite filter_twice.
    do 2 f_equal; apply filter_ext; intros [k x]; unfold in_e, is_E; simpl.
    apply andb_comm. }
  assert (forall kv, In kv out ->
            Dict.contains enrichers (fst kv) = false
            /\ value_of abundance (fst kv) = snd kv) as Hout.
  { intros [k x] Hkv; apply filter_In in Hkv as [Hkv Hc]; simpl.
    split; [apply negb_true_iff; exact Hc |].
    unfold value_of; rewrite (@wf_get _ abundance k x Hwa Hkv); reflexivity. }
  rewrite (@sum_map_ext _ val (fun kv => value_of enrichers (fst kv))
             (retargeted nuclide2element abundance enrichers E)).
  2:{ intros [k x] Hkv; apply filter_In in Hkv as [_ Hc]; simpl in Hc.
      unfold val, enriched_value; simpl; rewrite Hc; reflexivity. }
  rewrite (@sum_map_ext _ val (fun kv => snd kv - snd kv * (D * / S))
             (filter is_E out)).
  2:{ intros kv Hkv; apply filter_In in Hkv as [Hkv Hel].
      destruct (Hout kv Hkv) as [Hc Hv]; unfold is_E in Hel.
      unfold val, enriched_value; rewrite Hc, Hel, Hv.
      fold S D; unfold Qcdiv; ring. }
  rewrite (@sum_map_ext _ val snd (filter (fun kv => negb (is_E kv)) out)).
  2:{ intros kv Hkv; apply filter_In in Hkv as [Hkv Hel].
      destruct (Hout kv Hkv) as [Hc Hv]; unfold is_E in Hel.
      apply negb_true_iff in Hel.
      unfold val, enriched_value; rewrite Hc, Hel, Hv; reflexivity. }
  rewrite sum_map_minus, sum_map_scale, HSE.
  rewrite retargeted_imposed by assumption.
  rewrite retargeted_natural by assumption.
  unfold D, net_added, Dict.items; rewrite sum_map_minus.
  field; exact HS.
Qed.

Lemma enrich_conserves_total_witness :
  exists r, enrich nuclide2element_model Cases.three_isotopes
                   Cases.twenty_percent = Ok r
    /\ sum (Dict.values r) = sum (Dict.values Cases.three_isotopes).
Proof.
  apply (@enrich_conserves_total nuclide2element_model
           Cases.three_isotopes Cases.twenty_percent "U").
  - apply wfb_wf; reflexivity.
  - apply wfb_wf; reflexivity.
  - reflexivity.
  - intros k [<- | []]; reflexivity.
  - intros k [<- | []]; right; left; reflexivity.
  - intros H; apply (f_equal this) in H; vm_compute in H; discriminate H.
Defined.

(** ** [unfold_composite], further *)

Lemma for_each_app {A S : Type} (body : S -> A -> result S) l1 l2 s :
  for_each (l1 ++ l2) s body
  = (s' <- for_each l1 s body ;; for_each l2 s' body).
Proof.
  revert s; induction l1 as [| x l1 IH]; simpl; intros s; [reflexivity |].
  destruct (body s x); simpl; [apply IH | reflexivity].
Qed.

Lemma elements_loop_known (natural : string -> option dict)
      (composite unfolded r : dict) :
  for_each (Dict.items composite) unfolded
    (fun unfolded '(element, share) =>
       isotopes <- getattr_natural natural element ;;
       for_each (Dict.items isotopes) unfolded
         (fun unfolded '(k, v) => Ok (Dict.setitem unfolded k (v * share))))
  = Ok r ->
  all_known natural composite.
Proof.
  revert unfolded; induction composite as [| [element share] l IH]; simpl;
    intros unfolded H el Hel; [contradiction |].
  apply bind_Ok_inv in H as (acc & Hacc & H).
  destruct Hel as [<- | Hel]; [| exact (IH _ H el Hel)].
  unfold getattr_natural in Hacc.
  simpl; destruct (natural element); [discriminate | discriminate Hacc].
Qed.

(** [unfold_composite] returns exactly when every element of the composite
    has an entry in the natural table; otherwise it raises [AttributeError]
    for the first element, in the order of the composite, that has none. *)
Theorem unfold_composite_unknown_element
        (natural : string -> option dict) (composite : dict) :
  ((exists r, unfold_composite natural composite = Ok r)
   <-> all_known natural composite)
  /\ (forall l1 l2 element share,
         composite = l1 ++ (element, share) :: l2 ->
         all_known natural l1 ->
         natural element = None ->
         unfold_composite natural composite
         = Raise (AttributeError element)).
Proof.
  split; [split |].
  - intros [r Hr]; exact (elements_loop_known _ _ _ Hr).
  - intros H; eexists; apply unfold_composite_returns; exact H.
  - intros l1 l2 element share -> Hknown Hnone.
    unfold unfold_composite, Dict.items; rewrite for_each_app.
    match goal with
    | |- bind ?m _ = _ =>
        assert (m = Ok (Dict.update Dict.empty (contributions natural l1)))
          as -> by exact (@elements_loop natural l1 Dict.empty Hknown)
    end; simpl.
    unfold getattr_natural; rewrite Hnone; reflexivity.
Qed.

Lemma unfold_composite_unknown_element_witness :
  unfold_composite Samples.light [("H", frac 2 3); ("O", frac 1 3);
                                  ("Xx", 1)]%string
  = Raise (AttributeError "O").
Proof.
  apply (proj2 (unfold_composite_unknown_element Samples.light _)
           [("H", frac 2 3)]%string [("Xx", 1)]%string "O"%string (frac 1 3)).
  - reflexivity.
  - intros el [<- | []]; discriminate.
  - reflexivity.
Defined.

(** When no nuclide symbol occurs in the natural splits of two elements of
    the composite, the result lists the isotopes of each element in the
    order of the composite, and every isotope has its fraction times the
    share of its element. *)
Theorem unfold_composite_without_clash
        (natural : string -> option dict) (composite : dict) :
  Dict.wf composite ->
  (forall element, In element (Dict.keys composite) ->
     exists isotopes, natural element = Some isotopes /\ Dict.wf isotopes) ->
  (forall e1 e2 i1 i2 k,
      In e1 (Dict.keys composite) -> In e2 (Dict.keys composite) ->
      natural e1 = Some i1 -> natural e2 = Some i2 ->
      In k (Dict.keys i1) -> In k (Dict.keys i2) -> e1 = e2) ->
  unfold_composite natural composite
  = Ok (contributions natural composite)
  /\ (forall element share isotopes k v,
         In (element, share) composite ->
         natural element = Some isotopes ->
         Dict.get isotopes k = Some v ->
         Dict.get (contributions natural composite) k = Some (v * share)).
Proof.
  intros Hwf Htable Hclash.
  assert (all_known natural composite) as Hknown.
  { intros el Hel; destruct (Htable el Hel) as (i & -> & _); discriminate. }
  assert (Dict.wf (contributions natural composite)) as Hnd.
  { apply contributions_NoDup; [exact Hwf | |].
    - intros el Hel; destruct (Htable el Hel) as (i & Hi & Hwfi).
      unfold split_of; rewrite Hi; exact Hwfi.
    - intros e1 e2 k H1 H2.
      destruct (Htable e1 H1) as (i1 & Hi1 & _).
      destruct (Htable e2 H2) as (i2 & Hi2 & _).
      unfold split_of; rewrite Hi1, Hi2.
      apply (Hclash e1 e2 i1 i2 k); assumption. }
  split.
  - rewrite unfold_composite_returns by exact Hknown.
    rewrite update_fresh by exact Hnd; reflexivity.
  - intros element share isotopes k v Hin Hnat Hv.
    apply wf_get; [exact Hnd |]; unfold contributions; apply in_flat_map.
    exists (element, share); split; [exact Hin |]; simpl.
    unfold split_of, scaled; rewrite Hnat; apply in_map_iff.
    exists (k, v); split; [reflexivity | apply get_Some_In; exact Hv].
Qed.

Lemma unfold_composite_without_clash_witness :
  unfold_composite Samples.light Samples.methane
  = Ok (contributions Samples.light Samples.methane)
  /\ Dict.get (contributions Samples.light Samples.methane) "C13"
     = Some (frac 107 10000 * frac 1 5).
Proof.
  destruct (@unfold_composite_without_clash Samples.light Samples.methane)
    as [Hr Hget].
  - apply wfb_wf; reflexivity.
  - intros element [<- | [<- | []]]; eexists;
      (split; [reflexivity | apply wfb_wf; reflexivity]).
  - intros e1 e2 i1 i2 k [<- | [<- | []]] [<- | [<- | []]] H1 H2 K1 K2;
      try reflexivity; exfalso;
      vm_compute in H1, H2; injection H1 as <-; injection H2 as <-;
      simpl in K1, K2; intuition congruence.
  - split; [exact Hr |].
    apply (Hget "C"%string (frac 1 5)
             [("C12"%string, frac 9893 10000); ("C13"%string, frac 107 10000)]).
    + left; reflexivity.
    + reflexivity.
    + reflexivity.
Defined.

(** Unfolding one element with share 1 gives back its natural split. *)
Theorem unfold_composite_single_element
        (natural : string -> option dict) (element : string)
        (isotopes : dict) :
  natural element = Some isotopes ->
  Dict.wf isotopes ->
  unfold_composite natural [(element, 1)] = Ok isotopes.
Proof.
  intros Hnat Hwf; rewrite unfold_composite_returns
    by (intros el [Hel | []]; simpl in Hel; subst el; rewrite Hnat;
        discriminate).
  unfold contributions, split_of; simpl; rewrite Hnat, app_nil_r.
  rewrite update_fresh by (simpl; rewrite scaled_keys; exact Hwf).
  simpl; f_equal; unfold scaled.
  transitivity (map (fun kv : string * Qc => kv) isotopes); [| apply map_id].
  apply map_ext; intros [k v]; simpl; f_equal; ring.
Qed.

Lemma unfold_composite_single_element_witness :
  unfold_composite Samples.light [("H"%string, 1)]
  = Ok [("H1"%string, frac 99985 100000); ("H2"%string, frac 15 100000)].
Proof.
  apply unfold_composite_single_element;
    [reflexivity | apply wfb_wf; reflexivity].
Defined.

Lemma setitem_scaled (c : Qc) (d : dict) k v :
  Dict.setitem (scaled c d) k (v * c) = scaled c (Dict.setitem d k v).
Proof.
  unfold scaled; induction d as [| [k' v'] d IH]; simpl; [reflexivity |].
  destruct (String.eqb k k'); simpl; [reflexivity | rewrite IH; reflexivity].
Qed.

Lemma update_scaled (c : Qc) (kvs : list (string * Qc)) (d : dict) :
  Dict.update (scaled c d) (scaled c kvs) = scaled c (Dict.update d kvs).
Proof.
  unfold Dict.update; revert d.
  induction kvs as [| [k v] kvs IH]; simpl; intros d; [reflexivity |].
  rewrite setitem_scaled; apply IH.
Qed.

Lemma contributions_scaled (natural : string -> option dict) (c : Qc)
      (composite : dict) :
  contributions natural (scaled c composite)
  = scaled c (contributions natural composite).
Proof.
  unfold contributions.
  induction composite as [| [element share] l IH]; simpl; [reflexivity |].
  rewrite IH; unfold scaled at 4; rewrite map_app; f_equal.
  unfold scaled; rewrite map_map; apply map_ext; intros [k v]; simpl.
  f_equal; ring.
Qed.

(** In exact arithmetic, unfolding is homogeneous: multiplying every share
    of the composite by [c] multiplies every value of the result by [c],
    collisions or not. *)
Theorem unfold_composite_scales
        (natural : string -> option dict) (c : Qc) (composite r : dict) :
  unfold_composite natural composite = Ok r ->
  unfold_composite natural (scaled c composite) = Ok (scaled c r).
Proof.
  intros Hr.
  assert (all_known natural composite) as Hknown
      by (exact (elements_loop_known _ _ _ Hr)).
  rewrite unfold_composite_returns in Hr by exact Hknown; injection Hr as <-.
  rewrite unfold_composite_returns.
  - rewrite contributions_scaled; f_equal.
    exact (update_scaled c (contributions natural composite) []).
  - intros el Hel; apply Hknown.
    unfold Dict.keys in *; rewrite scaled_keys in Hel; exact Hel.
Qed.

Lemma unfold_composite_scales_witness :
  unfold_composite Samples.clashing (scaled (frac 1 2) Samples.mix_XY)
  = Ok (scaled (frac 1 2) [("N1"%string, frac 1 8); ("N2"%string, frac 3 8)]).
Proof.
  apply unfold_composite_scales, returns_Ok; vm_compute; reflexivity.
Defined.

(** ** [enrich] applied twice *)

(** Enriching an enriched composition again with the same enrichers changes
    nothing: when the second call returns, it returns its argument.  (It
    need not return: once the nuclides left out are down to zero, the
    second call divides by zero.) *)
Theorem enrich_twice
        (nuclide2element : string -> string) (abundance enrichers : dict)
        (r r' : dict) :
  Dict.wf abundance ->
  Dict.wf enrichers ->
  (forall k, In k (Dict.keys enrichers) -> In k (Dict.keys abundance)) ->
  enrich nuclide2element abundance enrichers = Ok r ->
  enrich nuclide2element r enrichers = Ok r' ->
  r' = r.
Proof.
  intros Hwa Hwe Hknown Hr Hr'.
  destruct (enrich_keys _ _ _ Hr) as [_ Hkeys]; specialize (Hkeys Hwa).
  assert (Dict.wf r) as Hwr by (unfold Dict.wf; rewrite Hkeys; exact Hwa).
  destruct (enrich_returned _ _ _ Hr) as (E & HE & Hsafe).
  assert (forall k v, In (k, v) (Dict.items enrichers) ->
                      Dict.get r k = Some v) as Hnat.
  { intros k v Hkv.
    assert (In k (Dict.keys enrichers)) as Hk by (eapply In_keys; exact Hkv).
    apply (enrich_get _ _ _ k HE Hr (Hknown k Hk)).
    intros x _; unfold enriched_value, value_of.
    apply contains_In in Hk; rewrite Hk.
    rewrite (@wf_get _ enrichers k v Hwe Hkv); reflexivity. }
  destruct (enrich_returned _ _ _ Hr') as (E' & HE' & Hsafe').
  assert (E' = E) as -> by congruence.
  rewrite (enrich_returns_values _ _ _ HE Hsafe') in Hr'; injection Hr' as <-.
  rewrite update_fresh by (simpl; rewrite map_map; exact Hwr).
  simpl; transitivity (map (fun kv : string * Qc => kv) r); [| apply map_id].
  apply map_ext_in; intros [k x] Hkx; simpl; f_equal.
  assert (Dict.get r k = Some x) as Hx by (apply wf_get; assumption).
  unfold enriched_value.
  destruct (Dict.contains enrichers k) eqn:Hc.
  - apply contains_In in Hc; pose proof (value_of_get _ _ Hc) as He.
    apply get_Some_In, Hnat in He; congruence.
  - unfold value_of; rewrite Hx.
    destruct (String.eqb (nuclide2element k) E); [| reflexivity].
    rewrite net_added_natural by exact Hnat; unfold Qcdiv; ring.
Qed.

Lemma enrich_twice_witness :
  Samples.uranium_5_percent = Samples.uranium_5_percent.
Proof.
  apply (@enrich_twice nuclide2element_model Samples.uranium
           Samples.reactor_grade).
  - apply wfb_wf; reflexivity.
  - apply wfb_wf; reflexivity.
  - intros k [<- | []]; left; reflexivity.
  - apply returns_Ok; vm_compute; reflexivity.
  - apply returns_Ok; vm_compute; reflexivity.
Defined.

(** * What rounding does *)

Section Rounding.
Import PrimFloat.
Local Open Scope float_scope.

(** C6 as stated fails on Python's floats: with abundance {A: 0.2} and
    pollutants {C: 0.2}, which share no key, [pollute] stores
    0.2 - 0.2 * 0.2 = 0.16 for A, while the stated
    abundance[A] * (1 - sum(pollutants.values())) is 0.16000000000000003. *)
Lemma pollute_rescale_rounds :
  (forall k, In k (Dict.keys Binary64.fifth_A) ->
             ~ In k (Dict.keys Binary64.fifth_C))
  /\ exists r, Binary64.pollute Binary64.fifth_A Binary64.fifth_C = Ok r
       /\ Dict.get r "A" = Some 0.16
       /\ 0.2 * (1 - Binary64.sum (Dict.values Binary64.fifth_C))
          = 0.16000000000000003
       /\ eqb 0.16 (0.2 * (1 - Binary64.sum (Dict.values Binary64.fifth_C)))
          = false.
Proof.
  split.
  - intros k [<- | []] [H | []]; discriminate H.
  - eexists; split; [vm_compute; reflexivity |].
    split; [vm_compute; reflexivity |].
    split; vm_compute; reflexivity.
Qed.

(** The example of the specification is exact on Python's floats as well:
    0.5 - 0.5 * 0.1 is the float 0.45. *)
Lemma pollute_halves_binary64 :
  Binary64.pollute Binary64.halves Binary64.tenth_C
  = Ok Binary64.polluted_halves.
Proof. vm_compute; reflexivity. Qed.

(** C3 as stated fails on Python's floats: with abundance
    {U235: 0.007, U238: 0.3} and enrichers {U235: 0.03}, a uranium key of the
    abundance, the divisor is 0.3 and [enrich] returns
    {U235: 0.03, U238: 0.27699999999999997}; the uranium total is
    0.30699999999999994 after and 0.307 before. *)
Lemma enrich_total_rounds :
  Binary64.enriched_element_of nuclide2element_model Binary64.to_3_percent
  = Ok "U"%string
  /\ (forall k, In k (Dict.keys Binary64.to_3_percent) ->
                nuclide2element_model k = "U"%string
                /\ In k (Dict.keys Binary64.uranium))
  /\ Binary64.enrich_capacity nuclide2element_model Binary64.uranium
                              Binary64.to_3_percent "U" = 0.3
  /\ exists r,
       Binary64.enrich nuclide2element_model Binary64.uranium
                       Binary64.to_3_percent = Ok r
       /\ r = [("U235"%string, 0.03); ("U238"%string, 0.27699999999999997)]
       /\ Binary64.element_total nuclide2element_model "U" r
          = 0.30699999999999994
       /\ Binary64.element_total nuclide2element_model "U" Binary64.uranium
          = 0.307
       /\ eqb (Binary64.element_total nuclide2element_model "U" r)
              (Binary64.element_total nuclide2element_model "U"
                                      Binary64.uranium)
          = false.
Proof.
  split; [reflexivity |].
  split; [intros k [<- | []]; split; [reflexivity | left; reflexivity] |].
  split; [vm_compute; reflexivity |].
  eexists; split; [vm_compute; reflexivity |].
  split; [reflexivity |].
  split; [vm_compute; reflexivity |].
  split; vm_compute; reflexivity.
Qed.
End Rounding.

(** * The classifiers on arbitrary strings *)

Lemma forallb_false_existsb {A : Type} (f : A -> bool) l :
  forallb f l = false <-> existsb (fun x => negb (f x)) l = true.
Proof.
  induction l as [| x l IH]; simpl; [split; discriminate |].
  destruct (f x); simpl; [exact IH | split; reflexivity].
Qed.

Section UnicodeFacts.
Variables isalpha_char isdecimal_char isdigit_char isnumeric_char : N -> bool.

Lemma unicode_str_isalpha_true (s : list N) :
  Unicode.str_isalpha isalpha_char s = true
  <-> s <> [] /\ Unicode.all_alpha isalpha_char s = true.
Proof.
  destruct s as [| c s].
  - split; [discriminate | intros [H _]; contradiction].
  - split; [intros H; split; [discriminate | exact H] | intros [_ H]; exact H].
Qed.

Lemma unicode_str_isalnum_true (s : list N) :
  Unicode.str_isalnum isalpha_char isdecimal_char isdigit_char
                      isnumeric_char s = true
  <-> s <> []
      /\ Unicode.all_alnum isalpha_char isdecimal_char isdigit_char
                           isnumeric_char s = true.
Proof.
  destruct s as [| c s].
  - split; [discriminate | intros [H _]; contradiction].
  - split; [intros H; split; [discriminate | exact H] | intros [_ H]; exact H].
Qed.

Lemma unicode_are_nuclides_each (keys : list (list N)) :
  Unicode.are_nuclides isalpha_char isdecimal_char isdigit_char
                       isnumeric_char keys = true
  <-> (forall k, In k keys ->
         Unicode.str_isalnum isalpha_char isdecimal_char isdigit_char
                             isnumeric_char k = true
         /\ Unicode.str_isalpha isalpha_char k = false).
Proof.
  unfold Unicode.are_nuclides.
  rewrite !py_bool_np_prod, !forallb_id_map, andb_true_iff, !forallb_forall.
  split.
  - intros [Hn Ha] k Hk; split; [exact (Hn k Hk) |].
    apply negb_true_iff; exact (Ha k Hk).
  - intros H; split; intros k Hk; destruct (H k Hk) as [Hn Ha];
      [exact Hn | apply negb_true_iff; exact Ha].
Qed.

(** [are_elements] returns true exactly when every string of the set is
    non-empty and made only of characters that [str.isalpha] accepts; so it
    is true on the empty set. *)
Theorem are_elements_exactly (keys : list (list N)) :
  Unicode.are_elements isalpha_char keys = true
  <-> (forall k, In k keys ->
                 k <> [] /\ Unicode.all_alpha isalpha_char k = true).
Proof.
  unfold Unicode.are_elements.
  rewrite py_bool_np_prod, forallb_id_map, forallb_forall.
  split; intros H k Hk; apply unicode_str_isalpha_true, H, Hk.
Qed.

(** [are_nuclides] returns true exactly when every string of the set is made
    only of characters that [str.isalnum] accepts and holds at least one
    character that [str.isalpha] rejects; the empty string makes it
    false. *)
Theorem are_nuclides_exactly (keys : list (list N)) :
  Unicode.are_nuclides isalpha_char isdecimal_char isdigit_char
                       isnumeric_char keys = true
  <-> (forall k, In k keys ->
         Unicode.all_alnum isalpha_char isdecimal_char isdigit_char
                           isnumeric_char k = true
         /\ Unicode.has_non_alpha isalpha_char k = true).
Proof.
  rewrite unicode_are_nuclides_each; split; intros H k Hk;
    destruct (H k Hk) as [H1 H2].
  - apply unicode_str_isalnum_true in H1 as [Hne Hn]; split; [exact Hn |].
    apply forallb_false_existsb.
    destruct k as [| c k]; [contradiction | exact H2].
  - assert (k <> []) as Hne by (intros ->; discriminate H2).
    split; [apply unicode_str_isalnum_true; split; assumption |].
    destruct k as [| c k]; [contradiction |].
    apply forallb_false_existsb; exact H2.
Qed.

(** In the Unicode database no character with a digit value is a letter. *)
Hypothesis digits_are_not_letters :
  forall c, Unicode.is_digit isdecimal_char isdigit_char c = true ->
            isalpha_char c = false.

(** C9: for every set of strings, [are_nuclides] is true when each string is
    alphanumeric and holds at least one digit, false when the set contains a
    purely alphabetic string or a string with a non-alphanumeric character,
    and true on the empty set; the character classes are those of
    [str.isalnum], [str.isalpha] and [str.isdigit]. *)
Theorem are_nuclides_every_string :
  (forall keys : list (list N),
      (forall k, In k keys ->
         Unicode.all_alnum isalpha_char isdecimal_char isdigit_char
                           isnumeric_char k = true
         /\ Unicode.has_digit isdecimal_char isdigit_char k = true) ->
      Unicode.are_nuclides isalpha_char isdecimal_char isdigit_char
                           isnumeric_char keys = true)
  /\ (forall (keys : list (list N)) (k : list N),
         In k keys ->
         Unicode.all_alpha isalpha_char k = true
         \/ Unicode.has_non_alnum isalpha_char isdecimal_char isdigit_char
                                  isnumeric_char k = true ->
         Unicode.are_nuclides isalpha_char isdecimal_char isdigit_char
                              isnumeric_char keys = false)
  /\ Unicode.are_nuclides isalpha_char isdecimal_char isdigit_char
                          isnumeric_char [] = true.
Proof.
  split; [| split].
  - intros keys H; apply unicode_are_nuclides_each; intros k Hk.
    destruct (H k Hk) as [Hn Hd].
    apply existsb_exists in Hd as (c & Hc & Hd).
    assert (k <> []) as Hne by (intros ->; exact Hc).
    split; [apply unicode_str_isalnum_true; split; assumption |].
    destruct (Unicode.str_isalpha isalpha_char k) eqn:Ha; [| reflexivity].
    apply unicode_str_isalpha_true in Ha as [_ Ha].
    unfold Unicode.all_alpha in Ha; rewrite forallb_forall in Ha.
    specialize (Ha c Hc).
    rewrite (digits_are_not_letters c Hd) in Ha; discriminate Ha.
  - intros keys k Hk Hbad.
    destruct (Unicode.are_nuclides _ _ _ _ keys) eqn:Hall; [| reflexivity].
    destruct (proj1 (unicode_are_nuclides_each keys) Hall k Hk) as [Hn Ha].
    apply unicode_str_isalnum_true in Hn as [Hne Hn].
    destruct Hbad as [Hbad | Hbad].
    + assert (Unicode.str_isalpha isalpha_char k = true) as Hk'
          by (apply unicode_str_isalpha_true; split; assumption).
      congruence.
    + apply forallb_false_existsb in Hbad.
      unfold Unicode.all_alnum in Hn; congruence.
  - reflexivity.
Qed.
End UnicodeFacts.

Lemma Latin1_digits_are_not_letters (c : N) :
  Unicode.is_digit Latin1.isdecimal_char Latin1.isdigit_char c = true ->
  Latin1.isalpha_char c = false.
Proof.
  unfold Unicode.is_digit, Latin1.isdecimal_char, Latin1.isdigit_char,
    Latin1.isalpha_char, Latin1.between; intros H.
  apply not_true_is_false; intros Ha.
  repeat rewrite ?orb_true_iff, ?andb_true_iff, ?N.leb_le, ?N.eqb_eq in H.
  repeat rewrite ?orb_true_iff, ?andb_true_iff, ?N.leb_le, ?N.eqb_eq in Ha.
  lia.
Qed.

Lemma are_nuclides_every_string_witness :
  Latin1.are_nuclides [Latin1.Fe_acute_56; Latin1.U235] = true
  /\ Latin1.are_nuclides [Latin1.U235; Latin1.Fe_acute] = false
  /\ Latin1.are_nuclides [Latin1.U_235] = false.
Proof.
  destruct (@are_nuclides_every_string Latin1.isalpha_char
              Latin1.isdecimal_char Latin1.isdigit_char Latin1.isnumeric_char
              Latin1_digits_are_not_letters) as (Hgood & Hbad & _).
  split; [| split].
  - apply Hgood; intros k [<- | [<- | []]]; split; reflexivity.
  - apply (Hbad _ Latin1.Fe_acute);
      [right; left; reflexivity | left; reflexivity].
  - apply (Hbad _ Latin1.U_235); [left; reflexivity | right; reflexivity].
Defined.

Lemma are_elements_exactly_witness :
  Latin1.are_elements [Latin1.Fe; Latin1.Fe_acute] = true
  /\ (Latin1.Fe_acute <> []
      /\ Unicode.all_alpha Latin1.isalpha_char Latin1.Fe_acute = true).
Proof.
  split.
  - apply are_elements_exactly.
    intros k [<- | [<- | []]]; split; try discriminate; reflexivity.
  - apply (proj1 (are_elements_exactly Latin1.isalpha_char
                    [Latin1.Fe; Latin1.Fe_acute]));
      [reflexivity | right; left; reflexivity].
Defined.

Lemma are_nuclides_exactly_witness :
  Latin1.are_nuclides [Latin1.Fe_acute_56; Latin1.U235] = true
  /\ (Unicode.all_alnum Latin1.isalpha_char Latin1.isdecimal_char
                        Latin1.isdigit_char Latin1.isnumeric_char
                        Latin1.Fe_acute_56 = true
      /\ Unicode.has_non_alpha Latin1.isalpha_char Latin1.Fe_acute_56 = true).
Proof.
  split.
  - apply are_nuclides_exactly.
    intros k [<- | [<- | []]]; split; reflexivity.
  - apply (proj1 (are_nuclides_exactly Latin1.isalpha_char
                    Latin1.isdecimal_char Latin1.isdigit_char
                    Latin1.isnumeric_char
                    [Latin1.Fe_acute_56; Latin1.U235]));
      [reflexivity | left; reflexivity].
Defined.

(** ** The classifiers on [string] are the ASCII restriction *)

Lemma ascii_classes (c : ascii) :
  (N_of_ascii c <? 128)%N = true ->
  is_alpha c = Latin1.isalpha_char (N_of_ascii c)
  /\ is_alnum c
     = Unicode.isalnum_char Latin1.isalpha_char Latin1.isdecimal_char
                            Latin1.isdigit_char Latin1.isnumeric_char
                            (N_of_ascii c).
Proof.
  destruct c as [b0 b1 b2 b3 b4 b5 b6 b7].
  destruct b0, b1, b2, b3, b4, b5, b6, b7; intros H;
    first [ discriminate H | split; vm_compute; reflexivity ].
Qed.

Lemma forallb_code_points (f : ascii -> bool) (g : N -> bool) (l : list ascii) :
  (forall c, In c l -> f c = g (N_of_ascii c)) ->
  forallb f l = forallb g (map N_of_ascii l).
Proof.
  induction l as [| c l IH]; simpl; intros H; [reflexivity |].
  rewrite (H c (or_introl eq_refl)), IH; [reflexivity |].
  intros x Hx; apply H; right; exact Hx.
Qed.

(** On ASCII strings [str_isalpha], [str_isalnum], [are_elements] and
    [are_nuclides] are the general classifiers read on the code points. *)
Lemma classifiers_ascii_restriction (keys : list string) :
  (forall k, In k keys -> ascii_only k = true) ->
  are_elements keys = Latin1.are_elements (map Latin1.code_points keys)
  /\ are_nuclides keys = Latin1.are_nuclides (map Latin1.code_points keys).
Proof.
  intros Hascii.
  assert (forall k, In k keys ->
            str_isalpha k
            = Unicode.str_isalpha Latin1.isalpha_char (Latin1.code_points k)
            /\ str_isalnum k
               = Unicode.str_isalnum Latin1.isalpha_char Latin1.isdecimal_char
                   Latin1.isdigit_char Latin1.isnumeric_char
                   (Latin1.code_points k)) as Hk.
  { intros k Hin; specialize (Hascii k Hin).
    unfold ascii_only in Hascii; rewrite forallb_forall in Hascii.
    destruct k as [| c k]; [split; reflexivity |].
    unfold str_isalpha, str_isalnum, Latin1.code_points,
      Unicode.str_isalpha, Unicode.str_isalnum.
    simpl list_ascii_of_string in *; simpl map; cbv iota.
    split; apply forallb_code_points; intros x Hx;
      apply ascii_classes, Hascii, Hx. }
  unfold are_elements, are_nuclides, Latin1.are_elements, Latin1.are_nuclides,
    Unicode.are_elements, Unicode.are_nuclides; rewrite !map_map.
  split; [do 2 f_equal | f_equal; do 2 f_equal];
    apply map_ext_in; intros k Hin; destruct (Hk k Hin) as [Ha Hn];
    congruence.
Qed.
